(** * SSD detector assembly and forward pipeline (ssds/modeling/ssds/ssd.py)

    A shallow embedding of [SSD.__init__], [SSD.forward], [add_extras] and
    [build_ssd].  Tensors carry their shape, their elements in logical
    row-major order and a layout flag; the numeric kernels of the tensor
    engine (convolution, softmax, parameter initialisation) and the layer
    parser of [ssds.modeling.layers.layers_parser] are parameters of the
    development, as is what differs between versions of the engine.
    Python exceptions are values of [result]; a method call runs in a
    state monad over the detector object and a log of the sub-modules
    that were invoked; a module may carry buffers, which a call updates
    in the object. *)

From Stdlib Require Import String ZArith Bool Lia PeanoNat List.
From Stdlib Require Finite.
Import ListNotations.

Local Open Scope string_scope.
Local Open Scope Z_scope.
Local Open Scope list_scope.

(** ** Exceptions and results *)

(** A Python exception, identified by the name of its class. *)
Inductive exn : Type :=
| PyExn (cls : string) (msg : string).

Definition exn_class (e : exn) : string :=
  match e with PyExn c _ => c end.

Definition RuntimeError (msg : string) : exn := PyExn "RuntimeError" msg.
Definition IndexError (msg : string) : exn := PyExn "IndexError" msg.

Inductive result (A : Type) : Type :=
| Ok (a : A)
| Raise (e : exn).

Arguments Ok {A} a.
Arguments Raise {A} e.

Definition is_ok {A} (r : result A) : bool :=
  match r with Ok _ => true | Raise _ => false end.

Definition raises {A} (cls : string) (r : result A) : Prop :=
  exists msg, r = Raise (PyExn cls msg).

(** ** Monads: plain results, and results over a threaded state *)

Class Monad (m : Type -> Type) : Type := {
  ret : forall {A}, A -> m A;
  bind : forall {A B}, m A -> (A -> m B) -> m B
}.

Declare Scope py_scope.
Delimit Scope py_scope with py.

Notation "x <- c1 ;; c2" := (bind c1 (fun x => c2))
  (at level 100, c1 at next level, right associativity) : py_scope.
Notation "' pat <- c1 ;; c2" := (bind c1 (fun x => match x with pat => c2 end))
  (at level 100, pat pattern, c1 at next level, right associativity) : py_scope.

Local Open Scope py_scope.

#[export] Instance Monad_result : Monad result := {
  ret := fun A a => Ok a;
  bind := fun A B r f => match r with Ok a => f a | Raise e => Raise e end
}.

(** A computation over a state [St]: it returns a value or raises, and in
    both cases leaves a state behind. *)
Definition M (St A : Type) : Type := St -> result A * St.

#[export] Instance Monad_M (St : Type) : Monad (M St) := {
  ret := fun A a s => (Ok a, s);
  bind := fun A B m f s =>
    match m s with
    | (Ok a, s') => f a s'
    | (Raise e, s') => (Raise e, s')
    end
}.

Definition lift {St A} (r : result A) : M St A := fun s => (r, s).

(** [for i in items: vars = body(i, vars)]: a [for] loop over a finite
    sequence, threading the loop-carried variables. *)
Fixpoint for_each {m : Type -> Type} `{Monad m} {I V : Type}
    (items : list I) (body : I -> V -> m V) (vars : V) : m V :=
  match items with
  | [] => ret vars
  | i :: rest => vars' <- body i vars ;; for_each rest body vars'
  end.

(** ** Python sequence built-ins *)

Definition range (n : nat) : list nat := seq 0 n.

Definition enumerate {A} (l : list A) : list (nat * A) :=
  combine (seq 0 (length l)) l.

(** [zip(a, b, c)]: stops at the shortest argument. *)
Fixpoint zip3 {A B C} (a : list A) (b : list B) (c : list C)
    : list (A * B * C) :=
  match a, b, c with
  | x :: a', y :: b', z :: c' => (x, y, z) :: zip3 a' b' c'
  | _, _, _ => []
  end.

(** [l[k]] *)
Definition getitem {A} (l : list A) (k : nat) : result A :=
  match nth_error l k with
  | Some a => Ok a
  | None => Raise (IndexError "list index out of range")
  end.

(** [l] with [a] at position [k]. *)
Fixpoint update_nth {A} (k : nat) (a : A) (l : list A) : list A :=
  match l, k with
  | [], _ => []
  | _ :: l', O => a :: l'
  | b :: l', S k' => b :: update_nth k' a l'
  end.

(** ** Configuration values *)

(** An entry of [feature_layer[0]]: the index of a backbone stage to tap
    (an [int]) or the name of a block type to append (a [str]). *)
Inductive Descriptor : Type :=
| DInt (k : Z)
| DStr (s : string).

Definition descriptor_eqb (a b : Descriptor) : bool :=
  match a, b with
  | DInt i, DInt j => i =? j
  | DStr s, DStr t => String.eqb s t
  | _, _ => false
  end.

(** [k in feature_layer] for an integer [k]. *)
Definition contains (fl : list Descriptor) (k : nat) : bool :=
  existsb (descriptor_eqb (DInt (Z.of_nat k))) fl.

Definition prod (l : list Z) : Z := fold_right Z.mul 1 l.
Definition sum (l : list Z) : Z := fold_right Z.add 0 l.

Fixpoint list_eqb (a b : list Z) : bool :=
  match a, b with
  | [], [] => true
  | x :: a', y :: b' => (x =? y) && list_eqb a' b'
  | _, _ => false
  end.

(** ** Tensors *)

Section Tensors.

(** The scalar type of the tensor engine. *)
Context {elt : Type}.

(** [data] lists the elements in logical row-major order; [contig] tells
    whether the storage is laid out in that order. *)
Record Tensor : Type := mkTensor {
  shape : list Z;
  data : list elt;
  contig : bool
}.

Definition numel (t : Tensor) : Z := prod (shape t).

(** [t.size(d)] *)
Definition size (t : Tensor) (d : nat) : result Z :=
  match nth_error (shape t) d with
  | Some n => Ok n
  | None => Raise (IndexError "dimension out of range")
  end.

(** Resolution of a requested shape against [n] elements; at most one
    entry may be [-1], which is then inferred. *)
Definition infer_size (sizes : list Z) (n : Z) : result (list Z) :=
  if existsb (fun d => d <? -1) sizes then
    Raise (RuntimeError "invalid shape dimension")
  else
    match count_occ Z.eq_dec sizes (-1) with
    | O =>
        if prod sizes =? n then Ok sizes
        else Raise (RuntimeError "shape is invalid for input size")
    | S O =>
        let known := prod (remove Z.eq_dec (-1) sizes) in
        if known =? 0 then
          Raise (RuntimeError "unspecified dimension is ambiguous")
        else if n mod known =? 0 then
          Ok (map (fun d => if d =? -1 then n / known else d) sizes)
        else Raise (RuntimeError "shape is invalid for input size")
    | _ => Raise (RuntimeError "only one dimension can be inferred")
    end.

(** [t.view(sizes...)]: same elements under a new shape.  A tensor whose
    storage is not in row-major order is refused (the engine's stride
    test, read conservatively). *)
Definition view (t : Tensor) (sizes : list Z) : result Tensor :=
  if contig t then
    s <- infer_size sizes (numel t) ;;
    ret (mkTensor s (data t) true)
  else
    Raise (RuntimeError "view size is not compatible with size and stride").

(** [t.contiguous()] *)
Definition contiguous (t : Tensor) : Tensor :=
  mkTensor (shape t) (data t) true.

Definition slice {A} (l : list A) (start len : nat) : list A :=
  firstn len (skipn start l).

Definition cat_compatible (dim : nat) (t0 t : Tensor) : bool :=
  (length (shape t) =? length (shape t0))%nat
  && list_eqb (firstn dim (shape t)) (firstn dim (shape t0))
  && list_eqb (skipn (S dim) (shape t)) (skipn (S dim) (shape t0)).

(** Concatenation along [dim], given the exception [empty] that the
    engine raises for an empty list: the tensors agree on every axis but
    [dim]; the result is freshly allocated, hence contiguous.  Its
    elements are, for each index of the leading axes, the slices of the
    arguments one after the other.  (The engine also lets one-dimensional
    empty tensors through; [forward] only concatenates three-dimensional
    views.) *)
Definition cat_with (empty : exn) (ts : list Tensor) (dim : nat)
    : result Tensor :=
  match ts with
  | [] => Raise empty
  | t0 :: _ =>
      if (dim <? length (shape t0))%nat && forallb (cat_compatible dim t0) ts
      then
        let pre := firstn dim (shape t0) in
        let post := skipn (S dim) (shape t0) in
        let chunk t := Z.to_nat (nth dim (shape t) 0 * prod post) in
        Ok (mkTensor
              (pre ++ [sum (map (fun t => nth dim (shape t) 0) ts)] ++ post)
              (flat_map
                 (fun o => flat_map
                             (fun t => slice (data t) (o * chunk t) (chunk t))
                             ts)
                 (seq 0 (Z.to_nat (prod pre))))
              true)
      else Raise (RuntimeError "sizes of tensors must match except in the cat dimension")
  end.

(** ** Layers *)

(** [nn.Conv2d] with stride 1, dilation 1 and one group. *)
Record Conv2d : Type := mkConv2d {
  in_channels : Z;
  out_channels : Z;
  kernel_size : Z;
  padding : Z;
  weight : list elt;
  bias : list elt
}.

End Tensors.

Arguments Tensor : clear implicits.
Arguments Conv2d : clear implicits.

(** What the development takes from the tensor engine.  The numeric
    kernels: parameter initialisation (output channels, input channels,
    kernel extent), convolution and softmax, each giving the elements of
    its result.  And the behaviour that differs between versions and
    machines: what a convolution without input channels or without output
    channels does with an input ([conv2d_degenerate]); the exception, if
    any, with which the engine refuses on its own account to allocate a
    convolution of the given channel counts, kernel and padding, for
    instance a count beyond its integers or the lack of memory
    ([conv2d_refusal]); the exception of [torch.cat] on an empty list
    ([cat_empty_error]). *)
Class Engine (elt : Type) : Type := {
  init_weight : Z -> Z -> Z -> list elt;
  init_bias : Z -> list elt;
  conv2d_op : Conv2d elt -> Tensor elt -> list elt;
  softmax_op : Z -> Tensor elt -> list elt;
  conv2d_degenerate : Conv2d elt -> Tensor elt -> result (Tensor elt);
  conv2d_refusal : Z -> Z -> Z -> Z -> option exn;
  cat_empty_error : exn
}.

Section Detector.

Context {elt : Type} {engine : Engine elt}.

#[local] Abbreviation Tensor := (Tensor elt).
#[local] Abbreviation Conv2d := (Conv2d elt).

(** [torch.cat(ts, dim)] *)
Definition cat (ts : list Tensor) (dim : nat) : result Tensor :=
  cat_with cat_empty_error ts dim.

(** [nn.Conv2d(in_channels, out_channels, kernel_size=k, padding=p)]: the
    parameter tensors are allocated with the given extents.  The engine
    may refuse on its own account; otherwise it refuses a negative
    extent. *)
Definition nn_Conv2d (cin cout k p : Z) : result Conv2d :=
  match conv2d_refusal cin cout k p with
  | Some e => Raise e
  | None =>
      if (cin <? 0) || (cout <? 0) || (k <? 0) then
        Raise (RuntimeError "Trying to create tensor with negative dimension")
      else
        Ok (mkConv2d cin cout k p (init_weight cout cin k) (init_bias cout))
  end.

(** A convolution without input channels or without output channels. *)
Definition degenerate (c : Conv2d) : bool :=
  (in_channels c <=? 0) || (out_channels c <=? 0).

(** The convolution proper, on an input whose channel count is the
    expected one; [lead] is the batch dimension, if any, and [h], [w] the
    spatial extent.  The result has the layout of the input. *)
Definition conv2d_planes (c : Conv2d) (x : Tensor) (lead : list Z)
    (h w : Z) : result Tensor :=
  if degenerate c then conv2d_degenerate c x
  else if (kernel_size c <=? h + 2 * padding c)
          && (kernel_size c <=? w + 2 * padding c)
  then
    Ok (mkTensor
          (lead ++ [out_channels c;
                    h + 2 * padding c - kernel_size c + 1;
                    w + 2 * padding c - kernel_size c + 1])
          (conv2d_op c x) (contig x))
  else Raise (RuntimeError "kernel size can't be greater than actual input size").

(** The forward of a convolution, on a batch [n, c, h, w] or on a single
    image [c, h, w]. *)
Definition conv2d_forward (c : Conv2d) (x : Tensor) : result Tensor :=
  match shape x with
  | [n; ch; h; w] =>
      if ch =? in_channels c then conv2d_planes c x [n] h w
      else Raise (RuntimeError "input has not the expected number of channels")
  | [ch; h; w] =>
      if ch =? in_channels c then conv2d_planes c x [] h w
      else Raise (RuntimeError "input has not the expected number of channels")
  | _ => Raise (RuntimeError "expected a 3D or 4D input to conv2d")
  end.

(** A module of the network: a convolution, a softmax, a stage without
    state of its own (known by the function it computes), or a stage with
    buffers that a call reads and writes (running statistics, the state
    of a random generator): its function takes the buffers and the input
    and gives the output and the new buffers. *)
Inductive Layer : Type :=
| LConv2d (c : Conv2d)
| LSoftmax (dim : Z)
| LModule (f : Tensor -> result Tensor)
| LStateful (buffers : list elt)
            (f : list elt -> Tensor -> result Tensor * list elt).

(** What [l(x)] returns. *)
Definition apply_layer (l : Layer) (x : Tensor) : result Tensor :=
  match l with
  | LConv2d c => conv2d_forward c x
  | LSoftmax d => Ok (mkTensor (shape x) (softmax_op d x) true)
  | LModule f => f x
  | LStateful b f => fst (f b x)
  end.

(** The module [l] once [l(x)] has run. *)
Definition step_layer (l : Layer) (x : Tensor) : Layer :=
  match l with
  | LStateful b f => LStateful (snd (f b x)) f
  | _ => l
  end.

(** ** The detector object *)

Record SSD : Type := mkSSD {
  num_classes : Z;
  base : list Layer;
  extras : list Layer;
  loc : list Layer;
  conf : list Layer;
  softmax : Layer;
  feature_layer : list Descriptor
}.

(** [SSD.__init__(self, base, extras, head, feature_layer, num_classes)] *)
Definition SSD_init (base extras : list Layer)
    (head : list Layer * list Layer)
    (feature_layer : list Descriptor * list Z) (num_classes : Z) : SSD :=
  mkSSD num_classes base extras (fst head) (snd head) (LSoftmax (-1))
        (fst feature_layer).

(** Which collection of the detector a called module belongs to. *)
Inductive Slot : Type := Base | Extras | Loc | Conf | Softmax.

(** The state a method runs in: the object, and the modules called so far. *)
Record State : Type := mkState {
  this : SSD;
  calls : list Slot
}.

(** [self.<attribute>] *)
Definition attr {A} (f : SSD -> A) : M State A :=
  fun s => (Ok (f (this s)), s).

(** The object in which the module at position [k] of the collection
    [slot] is [l]. *)
Definition set_layer (slot : Slot) (k : nat) (l : Layer) (o : SSD) : SSD :=
  match slot with
  | Base =>
      mkSSD (num_classes o) (update_nth k l (base o)) (extras o) (loc o)
            (conf o) (softmax o) (feature_layer o)
  | Extras =>
      mkSSD (num_classes o) (base o) (update_nth k l (extras o)) (loc o)
            (conf o) (softmax o) (feature_layer o)
  | Loc =>
      mkSSD (num_classes o) (base o) (extras o) (update_nth k l (loc o))
            (conf o) (softmax o) (feature_layer o)
  | Conf =>
      mkSSD (num_classes o) (base o) (extras o) (loc o)
            (update_nth k l (conf o)) (softmax o) (feature_layer o)
  | Softmax =>
      mkSSD (num_classes o) (base o) (extras o) (loc o) (conf o) l
            (feature_layer o)
  end.

(** [l(x)] for the module [l] that sits at position [k] of the collection
    [slot]: the call is logged and the module, which Python mutates in
    place, is left in the object with the buffers the call gave it. *)
Definition call (slot : Slot) (k : nat) (l : Layer) (x : Tensor)
    : M State Tensor :=
  fun s => (apply_layer l x,
            mkState (set_layer slot k (step_layer l x) (this s))
                    (calls s ++ [slot])).

(** What [forward] returns: the list of feature maps, or the pair of
    localisation and confidence tensors. *)
Inductive Output : Type :=
| Features (sources : list Tensor)
| Detections (loc conf : Tensor).

(** Body of the loop over the backbone stages. *)
Definition base_body (k : nat) (vars : Tensor * list Tensor)
    : M State (Tensor * list Tensor) :=
  let '(x, sources) := vars in
  stages <- attr base ;;
  l <- lift (getitem stages k) ;;
  x <- call Base k l x ;;
  fl <- attr feature_layer ;;
  if contains fl k then ret (x, sources ++ [x]) else ret (x, sources).

(** Body of the loop over the extra stages. *)
Definition extras_body (kv : nat * Layer) (vars : Tensor * list Tensor)
    : M State (Tensor * list Tensor) :=
  let '(k, v) := kv in
  let '(x, sources) := vars in
  x <- call Extras k v x ;;
  ret (x, sources ++ [x]).

(** Body of the loop over the heads; [k] is the position of the two
    modules in their lists, which tells which objects the calls mutate. *)
Definition head_body (kxlc : nat * (Tensor * Layer * Layer))
    (vars : list Tensor * list Tensor) : M State (list Tensor * list Tensor) :=
  let '(k, (x, l, c)) := kxlc in
  let '(loc, conf) := vars in
  y <- call Loc k l x ;;
  b <- lift (size x 0) ;;
  y <- lift (view y [b; 4; -1]) ;;
  let loc := loc ++ [y] in
  z <- call Conf k c x ;;
  b <- lift (size x 0) ;;
  nc <- attr num_classes ;;
  z <- lift (view z [b; nc; -1]) ;;
  let conf := conf ++ [z] in
  ret (loc, conf).

(** [SSD.forward(self, x, phase)] *)
Definition forward (x : Tensor) (phase : string) : M State Output :=
  let sources := [] in
  let loc_ := [] in
  let conf_ := [] in
  n <- attr (fun self => length (base self)) ;;
  '(x, sources) <- for_each (range n) base_body (x, sources) ;;
  ex <- attr extras ;;
  '(x, sources) <- for_each (enumerate ex) extras_body (x, sources) ;;
  if String.eqb phase "feature" then
    ret (Features sources)
  else
    ls <- attr loc ;;
    cs <- attr conf ;;
    '(loc_, conf_) <- for_each (enumerate (zip3 sources ls cs)) head_body
                               (loc_, conf_) ;;
    loc_ <- lift (cat loc_ 2) ;;
    let loc_ := contiguous loc_ in
    conf_ <- lift (cat conf_ 2) ;;
    let conf_ := contiguous conf_ in
    ret (Detections loc_ conf_).

(** [forward(x)] with the default [phase='eval']. *)
Definition forward_default (x : Tensor) : M State Output := forward x "eval".

(** ** The builder *)

(** [parse_feature_layer(layer, in_channels, depth)] of
    [ssds.modeling.layers.layers_parser]: the stages that implement one
    descriptor; [in_channels] is [None] on the first call. *)
Variable parse_feature_layer :
  Descriptor -> option Z -> Z -> result (list Layer).

(** The loop-carried variables of [add_extras]. *)
Record Builder : Type := mkBuilder {
  extra_layers : list Layer;
  loc_layers : list Layer;
  conf_layers : list Layer;
  cur_in_channels : option Z
}.

Definition add_extras_body (num_classes : Z) (ldb : Descriptor * Z * Z)
    (b : Builder) : result Builder :=
  let '(layer, depth, box) := ldb in
  new <- parse_feature_layer layer (cur_in_channels b) depth ;;
  let extra_layers := extra_layers b ++ new in
  let in_channels := depth in
  l <- nn_Conv2d in_channels (box * 4) 3 1 ;;
  let loc_layers := loc_layers b ++ [LConv2d l] in
  c <- nn_Conv2d in_channels (box * num_classes) 3 1 ;;
  let conf_layers := conf_layers b ++ [LConv2d c] in
  ret (mkBuilder extra_layers loc_layers conf_layers (Some in_channels)).

(** [add_extras(base, feature_layer, mbox, num_classes)] *)
Definition add_extras (base : list Layer)
    (feature_layer : list Descriptor * list Z) (mbox : list Z)
    (num_classes : Z)
    : result (list Layer * list Layer * (list Layer * list Layer)) :=
  b <- for_each (zip3 (fst feature_layer) (snd feature_layer) mbox)
                (add_extras_body num_classes)
                (mkBuilder [] [] [] None) ;;
  ret (base, extra_layers b, (loc_layers b, conf_layers b)).

(** [build_ssd(base, feature_layer, mbox, num_classes)]; [base] is the
    backbone factory. *)
Definition build_ssd (base : unit -> list Layer)
    (feature_layer : list Descriptor * list Z) (mbox : list Z)
    (num_classes : Z) : result SSD :=
  '(base_, extras_, head_) <- add_extras (base tt) feature_layer mbox
                                          num_classes ;;
  ret (SSD_init base_ extras_ head_ feature_layer num_classes).

End Detector.

Arguments Layer : clear implicits.
Arguments SSD : clear implicits.
Arguments State : clear implicits.
Arguments Output : clear implicits.
Arguments Builder : clear implicits.

(** ** Reference semantics

    Pure counterparts of the three loops of [forward], written from the
    description of the algorithm: the successive outputs of a stage list,
    the tapped outputs, and the per-scale reshaped head outputs. *)

Section Reference.

Context {elt : Type} {engine : Engine elt}.

#[local] Abbreviation Tensor := (Tensor elt).
#[local] Abbreviation Layer := (Layer elt).
#[local] Abbreviation SSD := (SSD elt).

(** Outputs of the stages applied one after the other, starting from [x]. *)
Fixpoint chain (ls : list Layer) (x : Tensor) : result (list Tensor) :=
  match ls with
  | [] => Ok []
  | l :: ls' =>
      y <- apply_layer l x ;;
      ys <- chain ls' y ;;
      ret (y :: ys)
  end.

(** The outputs whose stage index, counted from [k], is a tap. *)
Fixpoint taps (fl : list Descriptor) (k : nat) (outs : list Tensor)
    : list Tensor :=
  match outs with
  | [] => []
  | y :: outs' =>
      if contains fl k then y :: taps fl (S k) outs' else taps fl (S k) outs'
  end.

(** Steps 2 and 3: tapped backbone outputs in stage order, then every
    extra-stage output in order. *)
Definition sources_spec (self : SSD) (x : Tensor) : result (list Tensor) :=
  bouts <- chain (base self) x ;;
  eouts <- chain (extras self) (last bouts x) ;;
  ret (taps (feature_layer self) 0 bouts ++ eouts).

(** One head applied to one source and reshaped to [batch, c, -1]. *)
Definition reshaped_head (l : Layer) (x : Tensor) (c : Z) : result Tensor :=
  y <- apply_layer l x ;;
  b <- size x 0 ;;
  view y [b; c; -1].

(** Step 5: the reshaped localisation and confidence outputs of each
    (source, loc head, conf head) triple. *)
Fixpoint heads_spec (nc : Z) (triples : list (Tensor * Layer * Layer))
    : result (list (Tensor * Tensor)) :=
  match triples with
  | [] => Ok []
  | (x, l, c) :: rest =>
      v <- reshaped_head l x 4 ;;
      w <- reshaped_head c x nc ;;
      vws <- heads_spec nc rest ;;
      ret ((v, w) :: vws)
  end.

(** Steps 5 and 6 on a given list of triples. *)
Definition detect_spec (nc : Z) (triples : list (Tensor * Layer * Layer))
    : result (Output elt) :=
  vws <- heads_spec nc triples ;;
  loc_ <- cat (map fst vws) 2 ;;
  conf_ <- cat (map snd vws) 2 ;;
  ret (Detections (contiguous loc_) (contiguous conf_)).

(** The whole of [forward] as a function of the object, the input and the
    phase. *)
Definition forward_spec (self : SSD) (x : Tensor) (phase : string)
    : result (Output elt) :=
  sources <- sources_spec self x ;;
  if String.eqb phase "feature" then ret (Features sources)
  else detect_spec (num_classes self)
                   (zip3 sources (loc self) (conf self)).

(** The source-collecting prefix of [forward]: its two first loops. *)
Definition collect_sources (x : Tensor) : M (State elt) (list Tensor) :=
  n <- attr (fun self => length (base self)) ;;
  '(x, sources) <- for_each (range n) base_body (x, []) ;;
  ex <- attr extras ;;
  '(x, sources) <- for_each (enumerate ex) extras_body (x, sources) ;;
  ret sources.

(** What [forward] does once the sources are collected. *)
Definition dispatch (phase : string) (sources : list Tensor)
    : M (State elt) (Output elt) :=
  if String.eqb phase "feature" then
    ret (Features sources)
  else
    ls <- attr loc ;;
    cs <- attr conf ;;
    '(loc_, conf_) <- for_each (enumerate (zip3 sources ls cs)) head_body
                               ([], []) ;;
    loc_ <- lift (cat loc_ 2) ;;
    let loc_ := contiguous loc_ in
    conf_ <- lift (cat conf_ 2) ;;
    let conf_ := contiguous conf_ in
    ret (Detections loc_ conf_).

(** Result, log and final object of a computation started on the object
    [o] with an empty log. *)
Definition pure_of {A} (m : M (State elt) A) (o : SSD) : result A :=
  fst (m (mkState o [])).

Definition log_of {A} (m : M (State elt) A) (o : SSD) : list Slot :=
  calls (snd (m (mkState o []))).

Definition obj_of {A} (m : M (State elt) A) (o : SSD) : SSD :=
  this (snd (m (mkState o []))).

(** A computation is steady when it only appends to the log and does not
    look at it: its result and the object it leaves depend on the object
    it starts from alone. *)
Definition steady {A} (m : M (State elt) A) : Prop :=
  forall s, m s = (pure_of m (this s),
                   mkState (obj_of m (this s))
                           (calls s ++ log_of m (this s))).


(** [o'] is [o] outside the collections selected by [w]: the class
    count and the taps are those of [o], and so is every collection that
    [w] leaves out. *)
Definition agree_off (w : Slot -> bool) (o o' : SSD) : Prop :=
  num_classes o' = num_classes o
  /\ feature_layer o' = feature_layer o
  /\ (w Base = false -> base o' = base o)
  /\ (w Extras = false -> extras o' = extras o)
  /\ (w Loc = false -> loc o' = loc o)
  /\ (w Conf = false -> conf o' = conf o)
  /\ (w Softmax = false -> softmax o' = softmax o).

Definition is_stage (slot : Slot) : bool :=
  match slot with Base | Extras => true | _ => false end.

Definition is_head (slot : Slot) : bool :=
  match slot with Loc | Conf => true | _ => false end.

(** A computation keeps the relation [R] between the object it starts
    from and the object it leaves. *)
Definition keeps {A} (R : SSD -> SSD -> Prop) (m : M (State elt) A) : Prop :=
  forall o, R o (obj_of m o).


(** Every logged call satisfies [P]. *)
Definition emits {A} (P : Slot -> Prop) (m : M (State elt) A) : Prop :=
  forall o, Forall P (log_of m o).

(** The per-scale layout of a configuration: channel depth and spatial
    extent of the source of each scale, for a batch of [b] images. *)
Definition source_shapes (b : Z) (depths : list Z) (hw : list (Z * Z))
    : list (list Z) :=
  map (fun dhw => [b; fst dhw; fst (snd dhw); snd (snd dhw)])
      (combine depths hw).

(** Number of anchors: box count times spatial positions, over the scales. *)
Definition total_anchors (mbox : list Z) (hw : list (Z * Z)) : Z :=
  sum (map (fun bhw => fst bhw * (fst (snd bhw) * snd (snd bhw)))
           (combine mbox hw)).

(** The integer descriptors of a feature-layer specification. *)
Fixpoint tap_indices (fl : list Descriptor) : list Z :=
  match fl with
  | [] => []
  | DInt k :: fl' => k :: tap_indices fl'
  | DStr _ :: fl' => tap_indices fl'
  end.

(** A parser that, when it returns, has built nothing for a tap and one
    stage for a block name. *)
Definition one_stage_parser
    (parse : Descriptor -> option Z -> Z -> result (list Layer)) : Prop :=
  forall d ic depth new,
    parse d ic depth = Ok new ->
    match d with
    | DInt _ => new = []
    | DStr _ => exists l, new = [l]
    end.

(** A configuration is valid for a backbone of [n] stages when the three
    parallel sequences have the same length, the taps are distinct stage
    indices of the backbone, the box counts are positive and there is at
    least one class. *)
Record valid_config (n : nat) (feature_layer : list Descriptor * list Z)
    (mbox : list Z) (num_classes : Z) : Prop := {
  vc_depths : length (snd feature_layer) = length (fst feature_layer);
  vc_mbox : length mbox = length (fst feature_layer);
  vc_taps_range :
    Forall (fun k => 0 <= k < Z.of_nat n) (tap_indices (fst feature_layer));
  vc_taps_distinct : NoDup (tap_indices (fst feature_layer));
  vc_boxes : Forall (fun box => 0 < box) mbox;
  vc_classes : 1 <= num_classes
}.

(** The convolution the builder makes for a head: 3x3 kernel, padding 1. *)
Definition conv_of (cin cout : Z) : Conv2d elt :=
  mkConv2d cin cout 3 1 (init_weight cout cin 3) (init_bias cout).

(** The heads of one scale (descriptor, target depth, box count). *)
Definition loc_head (item : Descriptor * Z * Z) : Layer :=
  LConv2d (conv_of (snd (fst item)) (snd item * 4)).

Definition conf_head (nc : Z) (item : Descriptor * Z * Z) : Layer :=
  LConv2d (conv_of (snd (fst item)) (snd item * nc)).

(** [news] are the stage lists the parser returned for the scales [items],
    when it is handed the running channel count [cur] for the first scale
    and the depth of the previous scale afterwards. *)
Fixpoint parsed (parse : Descriptor -> option Z -> Z -> result (list Layer))
    (cur : option Z) (items : list (Descriptor * Z * Z))
    (news : list (list Layer)) : Prop :=
  match items, news with
  | [], [] => True
  | (layer, depth, _) :: items', new :: news' =>
      parse layer cur depth = Ok new /\ parsed parse (Some depth) items' news'
  | _, _ => False
  end.

(** A scale none of whose channel counts is negative. *)
Definition buildable (nc : Z) (item : Descriptor * Z * Z) : Prop :=
  0 <= snd (fst item) /\ 0 <= snd item * 4 /\ 0 <= snd item * nc.


(** The reshaped outputs [vw] of one scale carry the elements of the head
    outputs as the heads computed them. *)
Definition raw_outputs (t : Tensor * Layer * Layer) (vw : Tensor * Tensor)
    : Prop :=
  exists y z,
    apply_layer (snd (fst t)) (fst (fst t)) = Ok y
    /\ apply_layer (snd t) (fst (fst t)) = Ok z
    /\ data (fst vw) = data y /\ data (snd vw) = data z.

End Reference.

(** ** A small concrete detector

    An engine over integers and a two-stage backbone tapped at stage 1,
    followed by one extra stage: the scenario of two scales with box
    counts 4 and 6. *)

Module Sample.

#[export] Instance engine : Engine Z := {
  init_weight := fun o i k => repeat 0 (Z.to_nat (o * i * k * k));
  init_bias := fun o => repeat 0 (Z.to_nat o);
  conv2d_op := fun c x =>
    match shape x with
    | [n; _; h; w] =>
        repeat (sum (data x))
               (Z.to_nat (n * out_channels c
                          * (h + 2 * padding c - kernel_size c + 1)
                          * (w + 2 * padding c - kernel_size c + 1)))
    | _ => []
    end;
  softmax_op := fun _ x => data x;
  conv2d_degenerate := fun _ _ => Ok (mkTensor [0] [] true);
  conv2d_refusal := fun cin cout _ _ =>
    if (2 ^ 63 <=? cin) || (2 ^ 63 <=? cout)
    then Some (PyExn "TypeError" "integer out of range")
    else None;
  cat_empty_error := PyExn "ValueError" "expected a non-empty list of Tensors"
}.

(** A stage that halves the spatial extent and outputs [depth] channels. *)
Definition downsample (depth : Z) : Layer Z :=
  LModule (fun x =>
    match shape x with
    | [n; _; h; w] =>
        Ok (mkTensor [n; depth; h / 2; w / 2]
                     (repeat 1 (Z.to_nat (n * depth * (h / 2) * (w / 2))))
                     true)
    | _ => Raise (RuntimeError "expected a 4D input")
    end).

Definition backbone (_ : unit) : list (Layer Z) :=
  [downsample 8; downsample 16].

(** One stage per block name, none for a tap. *)
Definition parser (d : Descriptor) (ic : option Z) (depth : Z)
    : result (list (Layer Z)) :=
  match d with
  | DInt _ => Ok []
  | DStr _ => Ok [downsample depth]
  end.

(** Two stages per block name. *)
Definition parser2 (d : Descriptor) (ic : option Z) (depth : Z)
    : result (list (Layer Z)) :=
  match d with
  | DInt _ => Ok []
  | DStr _ => Ok [downsample depth; downsample depth]
  end.

Definition feature_layer : list Descriptor * list Z :=
  ([DInt 1; DStr "S"], [16; 8]).

Definition mbox : list Z := [4; 6].

Definition image : Tensor Z :=
  mkTensor [2; 3; 16; 16] (repeat 1 (Z.to_nat (2 * 3 * 16 * 16))) true.

(** The detector of the scenario, and the same configuration read by the
    parser that yields two stages per block name. *)
Definition detector : result (SSD Z) :=
  build_ssd parser backbone feature_layer mbox 3.

Definition detector2 : result (SSD Z) :=
  build_ssd parser2 backbone feature_layer mbox 3.

(** The built objects themselves. *)
Definition built_or_empty (d : result (SSD Z)) : SSD Z :=
  match d with
  | Ok self => self
  | Raise _ => SSD_init [] [] ([], []) feature_layer 3
  end.

Definition built : SSD Z := built_or_empty detector.
Definition built2 : SSD Z := built_or_empty detector2.

(** Spatial extents of the two scales for [image]. *)
Definition extents : list (Z * Z) := [(4, 4); (2, 2)].

(** The sources of [image], and the state once they are collected. *)
Definition sources_of (self : SSD Z) : list (Tensor Z) :=
  match fst (collect_sources image (mkState self [])) with
  | Ok srcs => srcs
  | Raise _ => []
  end.

Definition after_sources (self : SSD Z) : State Z :=
  snd (collect_sources image (mkState self [])).

(** [forward] of a freshly built detector. *)
Definition run (d : result (SSD Z)) (x : Tensor Z) (phase : string)
    : result (Output Z) * list Slot :=
  match d with
  | Ok self =>
      let r := forward x phase (mkState self []) in
      (fst r, calls (snd r))
  | Raise e => (Raise e, [])
  end.

(** Shapes of an output. *)
Definition shapes (o : result (Output Z)) : result (list (list Z)) :=
  match o with
  | Ok (Features srcs) => Ok (map shape srcs)
  | Ok (Detections l c) => Ok [shape l; shape c]
  | Raise e => Raise e
  end.

(** A detector without extra stage and without head. *)
Definition headless : SSD Z :=
  SSD_init (backbone tt) [] ([], []) feature_layer 3.

(** The configuration with a first depth that is not the channel count of
    the tapped stage. *)
Definition mismatched : SSD Z :=
  built_or_empty (build_ssd parser backbone ([DInt 1; DStr "S"], [32; 8])
                            mbox 3).

(** An input that is not a batch of images, and an empty batch. *)
Definition flat_image : Tensor Z := mkTensor [2; 3] (repeat 1 6) true.

Definition empty_batch : Tensor Z := mkTensor [0; 3; 16; 16] [] true.




Definition unscaled : SSD Z :=
  built_or_empty (build_ssd parser backbone ([], []) [] 3).



End Sample.

(** ** Properties *)

Section Properties.

Context {elt : Type} {engine : Engine elt}.

#[local] Abbreviation Tensor := (Tensor elt).
#[local] Abbreviation Layer := (Layer elt).
#[local] Abbreviation SSD := (SSD elt).
#[local] Abbreviation St := (State elt).

(** *** Computations in the state monad *)

Lemma bind_M_run {A B} (m : M St A) (f : A -> M St B) (s : St) :
  bind m f s = match m s with
               | (Ok a, s') => f a s'
               | (Raise e, s') => (Raise e, s')
               end.
Proof. reflexivity. Qed.

Lemma state_eta (s : St) : mkState (this s) (calls s) = s.
Proof. destruct s; reflexivity. Qed.

Lemma steady_ret {A} (a : A) : steady (ret a : M St A).
Proof.
  intros s. unfold pure_of, log_of, obj_of. cbn. rewrite app_nil_r.
  now rewrite state_eta.
Qed.

Lemma steady_lift {A} (r : result A) : steady (lift r : M St A).
Proof.
  intros s. unfold pure_of, log_of, obj_of, lift. cbn. rewrite app_nil_r.
  now rewrite state_eta.
Qed.

Lemma steady_attr {A} (f : SSD -> A) : steady (attr f).
Proof.
  intros s. unfold pure_of, log_of, obj_of, attr. cbn. rewrite app_nil_r.
  now rewrite state_eta.
Qed.

Lemma steady_call (slot : Slot) (k : nat) (l : Layer) (x : Tensor) :
  steady (call slot k l x).
Proof. intros s. reflexivity. Qed.

Lemma steady_bind {A B} (m : M St A) (f : A -> M St B) :
  steady m -> (forall a, steady (f a)) -> steady (bind m f).
Proof.
  intros Hm Hf s. unfold pure_of, log_of, obj_of.
  rewrite !bind_M_run.
  rewrite (Hm s), (Hm (mkState (this s) [])). cbn [this calls app].
  destruct (pure_of m (this s)) as [a | e].
  - rewrite (Hf a (mkState _ (calls s ++ _))), (Hf a (mkState _ (log_of m _))).
    cbn [this calls fst snd]. now rewrite app_assoc.
  - reflexivity.
Qed.

Lemma steady_for_each {I V} (items : list I) (body : I -> V -> M St V) :
  (forall i v, steady (body i v)) ->
  forall v, steady (for_each items body v).
Proof.
  intros Hb. induction items as [| i rest IH]; intros v; cbn [for_each].
  - apply steady_ret.
  - apply steady_bind; auto.
Qed.

(** Result, log and final object of a sequence of two steady
    computations: the second one starts on the object the first one
    leaves. *)
Lemma pure_of_bind {A B} (m : M St A) (f : A -> M St B) (o : SSD) :
  steady m -> (forall a, steady (f a)) ->
  pure_of (bind m f) o =
  bind (pure_of m o) (fun a => pure_of (f a) (obj_of m o)).
Proof.
  intros Hm Hf. unfold pure_of at 1. rewrite bind_M_run, (Hm (mkState o [])).
  cbn [this calls app]. destruct (pure_of m o) as [a | e]; cbn.
  - now rewrite (Hf a).
  - reflexivity.
Qed.

Lemma log_of_bind {A B} (m : M St A) (f : A -> M St B) (o : SSD) :
  steady m -> (forall a, steady (f a)) ->
  log_of (bind m f) o =
  log_of m o ++ match pure_of m o with
                | Ok a => log_of (f a) (obj_of m o)
                | Raise _ => []
                end.
Proof.
  intros Hm Hf. unfold log_of at 1. rewrite bind_M_run, (Hm (mkState o [])).
  cbn [this calls app]. destruct (pure_of m o) as [a | e]; cbn.
  - now rewrite (Hf a).
  - now rewrite app_nil_r.
Qed.

Lemma obj_of_bind {A B} (m : M St A) (f : A -> M St B) (o : SSD) :
  steady m -> (forall a, steady (f a)) ->
  obj_of (bind m f) o =
  match pure_of m o with
  | Ok a => obj_of (f a) (obj_of m o)
  | Raise _ => obj_of m o
  end.
Proof.
  intros Hm Hf. unfold obj_of at 1. rewrite bind_M_run, (Hm (mkState o [])).
  cbn [this calls app]. destruct (pure_of m o) as [a | e]; cbn.
  - now rewrite (Hf a).
  - reflexivity.
Qed.

Lemma pure_of_attr {A} (f : SSD -> A) (o : SSD) :
  pure_of (attr f) o = Ok (f o).
Proof. reflexivity. Qed.

Lemma obj_of_attr {A} (f : SSD -> A) (o : SSD) : obj_of (attr f) o = o.
Proof. reflexivity. Qed.


Lemma emits_bind {A B} (P : Slot -> Prop) (m : M St A) (f : A -> M St B) :
  steady m -> (forall a, steady (f a)) ->
  emits P m -> (forall a, emits P (f a)) -> emits P (bind m f).
Proof.
  intros Hm Hf Em Ef o. rewrite log_of_bind by assumption.
  apply Forall_app. split; [apply Em |].
  destruct (pure_of m o); [apply Ef | constructor].
Qed.

Lemma emits_quiet {A} (P : Slot -> Prop) (m : M St A) :
  (forall o, log_of m o = []) -> emits P m.
Proof. intros H o. rewrite H. constructor. Qed.

Lemma emits_call (P : Slot -> Prop) (slot : Slot) k (l : Layer) (x : Tensor) :
  P slot -> emits P (call slot k l x).
Proof. intros H o. unfold log_of, call. cbn. auto. Qed.

Lemma emits_for_each {I V} (P : Slot -> Prop) (items : list I)
    (body : I -> V -> M St V) :
  (forall i v, steady (body i v)) ->
  (forall i v, emits P (body i v)) ->
  forall v, emits P (for_each items body v).
Proof.
  intros Hb Eb. induction items as [| i rest IH]; intros v; cbn [for_each].
  - now apply emits_quiet.
  - apply emits_bind; auto using steady_for_each.
Qed.

(** *** What a computation does to the object *)

Section Keeps.

Variable R : SSD -> SSD -> Prop.
Hypothesis R_refl : forall o, R o o.
Hypothesis R_trans : forall o1 o2 o3, R o1 o2 -> R o2 o3 -> R o1 o3.

Lemma keeps_quiet {A} (m : M St A) :
  (forall o, obj_of m o = o) -> keeps R m.
Proof. intros H o. rewrite H. apply R_refl. Qed.

Lemma keeps_bind {A B} (m : M St A) (f : A -> M St B) :
  steady m -> (forall a, steady (f a)) ->
  keeps R m -> (forall a, keeps R (f a)) -> keeps R (bind m f).
Proof.
  intros Hm Hf Km Kf o. rewrite obj_of_bind by assumption.
  destruct (pure_of m o); [| apply Km].
  eapply R_trans; [apply Km | apply Kf].
Qed.

Lemma keeps_for_each {I V} (items : list I) (body : I -> V -> M St V) :
  (forall i v, steady (body i v)) ->
  (forall i v, keeps R (body i v)) ->
  forall v, keeps R (for_each items body v).
Proof.
  intros Hb Kb. induction items as [| i rest IH]; intros v; cbn [for_each].
  - now apply keeps_quiet.
  - apply keeps_bind; auto using steady_for_each.
Qed.

Lemma keeps_call slot k (l : Layer) (x : Tensor) :
  (forall o l', R o (set_layer slot k l' o)) -> keeps R (call slot k l x).
Proof. intros H o. apply H. Qed.

End Keeps.


Lemma update_nth_middle {A} (pre rest : list A) (a b : A) :
  update_nth (length pre) b (pre ++ a :: rest) = pre ++ b :: rest.
Proof.
  induction pre as [| c pre IH]; cbn; [reflexivity | now rewrite IH].
Qed.





Lemma agree_off_refl w (o : SSD) : agree_off w o o.
Proof. repeat split. Qed.

Lemma agree_off_trans w (o1 o2 o3 : SSD) :
  agree_off w o1 o2 -> agree_off w o2 o3 -> agree_off w o1 o3.
Proof.
  unfold agree_off. intros (A1 & A2 & A3 & A4 & A5 & A6 & A7)
                           (B1 & B2 & B3 & B4 & B5 & B6 & B7).
  repeat split; try congruence; intros H;
    [rewrite B3, A3 | rewrite B4, A4 | rewrite B5, A5 | rewrite B6, A6
     | rewrite B7, A7]; auto.
Qed.

Lemma agree_off_set (w : Slot -> bool) slot k (l' : Layer) (o : SSD) :
  w slot = true -> agree_off w o (set_layer slot k l' o).
Proof.
  intros Hw. destruct slot; cbn; repeat split; cbn; auto;
    intros H; congruence.
Qed.

(** *** The loop bodies of [forward] *)

Ltac steady_step :=
  first
    [ apply steady_ret | apply steady_lift | apply steady_attr
    | apply steady_call | apply steady_for_each; intros
    | apply steady_bind; [| intros] ].

Ltac steady_tac :=
  repeat (steady_step
          || match goal with
             | |- steady (match ?p with (_, _) => _ end) => destruct p
             | |- steady (if ?b then _ else _) => destruct b
             end).

Lemma steady_base_body k v : steady (base_body k v).
Proof. destruct v as [x sources]. unfold base_body. steady_tac. Qed.

Lemma steady_extras_body kv v : steady (extras_body kv v).
Proof.
  destruct kv as [k l], v as [x sources]. unfold extras_body. steady_tac.
Qed.

Lemma steady_head_body kxlc v : steady (head_body kxlc v).
Proof.
  destruct kxlc as [k [[x l] c]], v as [ls cs]. unfold head_body. steady_tac.
Qed.

Lemma steady_collect_sources x : steady (collect_sources x).
Proof.
  unfold collect_sources. steady_tac;
    auto using steady_base_body, steady_extras_body.
Qed.

Lemma steady_forward x phase : steady (forward x phase).
Proof.
  unfold forward. steady_tac;
    auto using steady_base_body, steady_extras_body, steady_head_body.
Qed.

Lemma steady_dispatch phase sources : steady (dispatch phase sources).
Proof.
  unfold dispatch. steady_tac; auto using steady_head_body.
Qed.

(** [forward] is its source-collecting prefix followed by the dispatch on
    the phase. *)
Lemma forward_split x phase s :
  forward x phase s = bind (collect_sources x) (dispatch phase) s.
Proof.
  unfold forward, collect_sources, attr. cbn [bind ret Monad_M].
  destruct (for_each (range _) base_body _ s) as [[[x1 src1] | e] s1];
    [| reflexivity].
  destruct (for_each (enumerate _) extras_body _ s1) as [[[x2 src2] | e] s2];
    reflexivity.
Qed.

Ltac steady_all :=
  intros; steady_tac;
  auto using steady_base_body, steady_extras_body, steady_head_body,
             steady_collect_sources, steady_dispatch.

(** The calls of each body, and of the loops. *)
Lemma emits_base_body P k v : P Base -> emits P (base_body k v).
Proof.
  intros H. destruct v as [x acc]. unfold base_body.
  apply emits_bind; [steady_all | steady_all | now apply emits_quiet |].
  intros stages.
  apply emits_bind; [steady_all | steady_all | now apply emits_quiet |].
  intros l.
  apply emits_bind; [steady_all | steady_all | now apply emits_call |].
  intros y.
  apply emits_bind; [steady_all | steady_all | now apply emits_quiet |].
  intros fl. destruct (contains fl k); now apply emits_quiet.
Qed.

Lemma emits_extras_body P kv v : P Extras -> emits P (extras_body kv v).
Proof.
  intros H. destruct kv as [k l], v as [x acc]. unfold extras_body.
  apply emits_bind; [steady_all | steady_all | now apply emits_call |].
  intros y. now apply emits_quiet.
Qed.

Lemma emits_head_body P kxlc v :
  P Loc -> P Conf -> emits P (head_body kxlc v).
Proof.
  intros H1 H2. destruct kxlc as [k [[x l] c]], v as [ls cs].
  unfold head_body.
  apply emits_bind; [steady_all | steady_all | now apply emits_call |].
  intros y.
  apply emits_bind; [steady_all | steady_all | now apply emits_quiet |].
  intros b.
  apply emits_bind; [steady_all | steady_all | now apply emits_quiet |].
  intros v.
  apply emits_bind; [steady_all | steady_all | now apply emits_call |].
  intros z.
  apply emits_bind; [steady_all | steady_all | now apply emits_quiet |].
  intros b'.
  apply emits_bind; [steady_all | steady_all | now apply emits_quiet |].
  intros nc.
  apply emits_bind; [steady_all | steady_all | now apply emits_quiet |].
  intros w. now apply emits_quiet.
Qed.

Lemma emits_collect_sources P x :
  P Base -> P Extras -> emits P (collect_sources x).
Proof.
  intros H1 H2. unfold collect_sources.
  apply emits_bind; [steady_all | steady_all | now apply emits_quiet |].
  intros n.
  apply emits_bind; [steady_all | steady_all | | intros [x1 s1]].
  { apply emits_for_each; auto using steady_base_body, emits_base_body. }
  apply emits_bind; [steady_all | steady_all | now apply emits_quiet |].
  intros ex.
  apply emits_bind; [steady_all | steady_all | | intros [x2 s2]].
  { apply emits_for_each; auto using steady_extras_body, emits_extras_body. }
  now apply emits_quiet.
Qed.

(** What each body leaves of the object. *)
Section KeepsBodies.

Variable R : SSD -> SSD -> Prop.
Hypothesis R_refl : forall o, R o o.
Hypothesis R_trans : forall o1 o2 o3, R o1 o2 -> R o2 o3 -> R o1 o3.

Ltac keeps_quiet_tac := apply (keeps_quiet R R_refl); reflexivity.

Ltac keeps_next :=
  apply (keeps_bind R R_trans);
  [steady_all | steady_all | try keeps_quiet_tac | intros].

Lemma keeps_base_body k v :
  (forall o j l', R o (set_layer Base j l' o)) -> keeps R (base_body k v).
Proof.
  intros H. destruct v as [x acc]. unfold base_body.
  keeps_next. keeps_next.
  keeps_next; [apply keeps_call; intros; apply H |].
  keeps_next.
  match goal with |- keeps R (if ?b then _ else _) => destruct b end;
    keeps_quiet_tac.
Qed.

Lemma keeps_extras_body kv v :
  (forall o j l', R o (set_layer Extras j l' o)) -> keeps R (extras_body kv v).
Proof.
  intros H. destruct kv as [k l], v as [x acc]. unfold extras_body.
  keeps_next; [apply keeps_call; intros; apply H |].
  keeps_quiet_tac.
Qed.

Lemma keeps_head_body kxlc v :
  (forall o j l', R o (set_layer Loc j l' o)) ->
  (forall o j l', R o (set_layer Conf j l' o)) ->
  keeps R (head_body kxlc v).
Proof.
  intros H1 H2. destruct kxlc as [k [[x l] c]], v as [ls cs].
  unfold head_body.
  keeps_next; [apply keeps_call; intros; apply H1 |].
  keeps_next. keeps_next.
  keeps_next; [apply keeps_call; intros; apply H2 |].
  keeps_next. keeps_next. keeps_next.
  keeps_quiet_tac.
Qed.

Lemma keeps_collect_sources x :
  (forall o j l', R o (set_layer Base j l' o)) ->
  (forall o j l', R o (set_layer Extras j l' o)) ->
  keeps R (collect_sources x).
Proof.
  intros H1 H2. unfold collect_sources.
  keeps_next.
  keeps_next;
    [apply (keeps_for_each R R_refl R_trans);
     auto using steady_base_body, keeps_base_body |].
  match goal with a : (_ * _)%type |- _ => destruct a as [x1 s1] end.
  keeps_next.
  keeps_next;
    [apply (keeps_for_each R R_refl R_trans);
     auto using steady_extras_body, keeps_extras_body |].
  match goal with a : (_ * _)%type |- _ => destruct a as [x2 s2] end.
  keeps_quiet_tac.
Qed.


End KeepsBodies.

(** Collecting the sources leaves the heads and the class count alone. *)
Lemma collect_sources_frame (o : SSD) x :
  agree_off is_stage o (obj_of (collect_sources x) o).
Proof.
  apply (keeps_collect_sources (agree_off is_stage) (agree_off_refl _)
           (agree_off_trans _));
    intros; now apply agree_off_set.
Qed.

(** *** The loops compute the reference semantics *)

Lemma last_cons {A} (y : A) (l : list A) (d : A) :
  last (y :: l) d = last l y.
Proof.
  revert y d. induction l as [| a l IH]; intros y d; [reflexivity |].
  change (last (y :: a :: l) d) with (last (a :: l) d).
  now rewrite (IH a d), (IH a y).
Qed.

Lemma getitem_middle {A} (pre rest : list A) (a : A) :
  getitem (pre ++ a :: rest) (length pre) = Ok a.
Proof.
  unfold getitem. rewrite nth_error_app2 by lia.
  now rewrite Nat.sub_diag.
Qed.

Lemma pure_base_body (o : SSD) k l x acc :
  getitem (base o) k = Ok l ->
  pure_of (base_body k (x, acc)) o =
  (y <- apply_layer l x ;;
   ret (y, if contains (feature_layer o) k then acc ++ [y] else acc)).
Proof.
  intros H. unfold pure_of, base_body, attr, lift, call.
  cbn [bind ret Monad_M Monad_result this calls]. rewrite H.
  destruct (apply_layer l x) as [y | e]; [| reflexivity].
  destruct o. cbn [set_layer feature_layer].
  destruct (contains _ k); reflexivity.
Qed.

Lemma obj_base_body (o : SSD) k l x acc :
  getitem (base o) k = Ok l ->
  obj_of (base_body k (x, acc)) o = set_layer Base k (step_layer l x) o.
Proof.
  intros H. unfold obj_of, base_body, attr, lift, call.
  cbn [bind ret Monad_M Monad_result this calls]. rewrite H.
  destruct (apply_layer l x) as [y | e]; [| reflexivity].
  destruct o. cbn [set_layer feature_layer this].
  destruct (contains _ k); reflexivity.
Qed.

Lemma base_loop_pure :
  forall rest pre x acc (o : SSD),
    base o = pre ++ rest ->
    pure_of (for_each (seq (length pre) (length rest)) base_body (x, acc)) o =
    (outs <- chain rest x ;;
     ret (last outs x, acc ++ taps (feature_layer o) (length pre) outs)).
Proof.
  induction rest as [| l rest IH]; intros pre x acc o Hb.
  - cbn. now rewrite app_nil_r.
  - cbn [length seq for_each chain].
    assert (Hg : getitem (base o) (length pre) = Ok l)
      by (rewrite Hb; apply getitem_middle).
    rewrite pure_of_bind by steady_all.
    rewrite (pure_base_body o (length pre) l) by exact Hg.
    rewrite (obj_base_body o (length pre) l) by exact Hg.
    cbn [bind Monad_result].
    destruct (apply_layer l x) as [y | e]; [| reflexivity].
    cbn [ret Monad_result].
    specialize (IH (pre ++ [step_layer l x]) y
                   (if contains (feature_layer o) (length pre)
                    then acc ++ [y] else acc)
                   (set_layer Base (length pre) (step_layer l x) o)).
    rewrite length_app, Nat.add_1_r in IH.
    rewrite IH.
    + destruct (chain rest y) as [outs | e]; [| reflexivity].
      cbn [bind ret Monad_result taps set_layer feature_layer].
      rewrite last_cons.
      destruct (contains (feature_layer o) (length pre));
        [rewrite <- app_assoc |]; reflexivity.
    + cbn [set_layer base]. rewrite Hb, update_nth_middle, <- app_assoc.
      reflexivity.
Qed.

Lemma pure_extras_body (o : SSD) k l x acc :
  pure_of (extras_body (k, l) (x, acc)) o =
  (y <- apply_layer l x ;; ret (y, acc ++ [y])).
Proof.
  unfold pure_of, extras_body, call.
  cbn [bind ret Monad_M Monad_result this calls].
  destruct (apply_layer l x); reflexivity.
Qed.

Lemma extras_loop_pure :
  forall ex k x acc (o : SSD),
    pure_of (for_each (combine (seq k (length ex)) ex) extras_body (x, acc)) o =
    (outs <- chain ex x ;; ret (last outs x, acc ++ outs)).
Proof.
  induction ex as [| l ex IH]; intros k x acc o.
  - cbn. now rewrite app_nil_r.
  - cbn [length seq combine for_each chain].
    rewrite pure_of_bind by steady_all.
    rewrite pure_extras_body. cbn [bind Monad_result].
    destruct (apply_layer l x) as [y | e]; [| reflexivity].
    cbn [ret Monad_result]. rewrite IH.
    destruct (chain ex y) as [outs | e]; [| reflexivity].
    cbn [bind ret Monad_result]. rewrite last_cons, <- app_assoc.
    reflexivity.
Qed.

Lemma pure_collect_sources (o : SSD) x :
  pure_of (collect_sources x) o = sources_spec o x.
Proof.
  unfold collect_sources, sources_spec.
  rewrite pure_of_bind by steady_all.
  rewrite pure_of_attr, obj_of_attr; cbn [bind Monad_result].
  rewrite pure_of_bind by steady_all.
  unfold range.
  pose proof (base_loop_pure (base o) [] x [] o eq_refl) as Hb.
  simpl (length []) in Hb. rewrite Hb. clear Hb.
  destruct (chain (base o) x) as [bouts | e]; [| reflexivity].
  cbn [bind ret Monad_result app].
  set (o1 := obj_of _ o).
  assert (Hf : agree_off (fun slot => match slot with Base => true
                                                 | _ => false end) o o1).
  { apply (keeps_for_each (agree_off _) (agree_off_refl _)
             (agree_off_trans _)); [apply steady_base_body |].
    intros. apply (keeps_base_body (agree_off _) (agree_off_refl _)
                     (agree_off_trans _)).
    intros. now apply agree_off_set. }
  destruct Hf as (_ & _ & _ & He & _). specialize (He eq_refl).
  rewrite pure_of_bind by steady_all.
  rewrite pure_of_attr, obj_of_attr; cbn [bind Monad_result].
  rewrite pure_of_bind by steady_all.
  unfold enumerate. rewrite extras_loop_pure, He.
  destruct (chain (extras o) (last bouts x)) as [eouts | e]; reflexivity.
Qed.

Lemma pure_head_body (o : SSD) k x l c ls cs :
  pure_of (head_body (k, (x, l, c)) (ls, cs)) o =
  (v <- reshaped_head l x 4 ;;
   w <- reshaped_head c x (num_classes o) ;;
   ret (ls ++ [v], cs ++ [w])).
Proof.
  unfold pure_of, head_body, reshaped_head, attr, lift, call.
  cbn [bind ret Monad_M Monad_result this calls].
  destruct (apply_layer l x) as [y | e]; [| reflexivity].
  destruct (size x 0) as [b | e]; [| reflexivity].
  destruct (view y [b; 4; -1]) as [v | e]; [| reflexivity].
  destruct (apply_layer c x) as [z | e]; [| reflexivity].
  destruct o. cbn [set_layer num_classes].
  destruct (view z [b; _; -1]) as [w | e]; reflexivity.
Qed.

Lemma head_body_frame (o : SSD) kxlc v :
  agree_off is_head o (obj_of (head_body kxlc v) o).
Proof.
  apply (keeps_head_body (agree_off is_head) (agree_off_refl _)
           (agree_off_trans _));
    intros; now apply agree_off_set.
Qed.

Lemma head_loop_pure :
  forall triples k ls cs (o : SSD),
    pure_of (for_each (combine (seq k (length triples)) triples) head_body
                      (ls, cs)) o =
    (vws <- heads_spec (num_classes o) triples ;;
     ret (ls ++ map fst vws, cs ++ map snd vws)).
Proof.
  induction triples as [| [[x l] c] rest IH]; intros k ls cs o.
  - cbn. now rewrite !app_nil_r.
  - cbn [length seq combine for_each heads_spec].
    rewrite pure_of_bind by steady_all.
    rewrite pure_head_body. cbn [bind Monad_result].
    destruct (reshaped_head l x 4) as [v | e]; [| reflexivity].
    destruct (reshaped_head c x (num_classes o)) as [w | e]; [| reflexivity].
    cbn [ret Monad_result]. rewrite IH.
    destruct (head_body_frame o (k, (x, l, c)) (ls, cs)) as (-> & _).
    destruct (heads_spec (num_classes o) rest) as [vws | e]; [| reflexivity].
    cbn [bind ret Monad_result map fst snd]. now rewrite <- !app_assoc.
Qed.

Lemma pure_dispatch (o : SSD) phase sources :
  pure_of (dispatch phase sources) o =
  if String.eqb phase "feature" then Ok (Features sources)
  else detect_spec (num_classes o) (zip3 sources (loc o) (conf o)).
Proof.
  unfold dispatch. destruct (String.eqb phase "feature"); [reflexivity |].
  unfold detect_spec.
  rewrite pure_of_bind by steady_all.
  rewrite pure_of_attr, obj_of_attr; cbn [bind Monad_result].
  rewrite pure_of_bind by steady_all.
  rewrite pure_of_attr, obj_of_attr; cbn [bind Monad_result].
  rewrite pure_of_bind by steady_all.
  unfold enumerate. rewrite head_loop_pure.
  destruct (heads_spec _ _) as [vws | e]; [| reflexivity].
  cbn [bind ret Monad_result app].
  unfold pure_of, lift. cbn [bind ret Monad_M Monad_result fst].
  destruct (cat (map fst vws) 2); [| reflexivity].
  destruct (cat (map snd vws) 2); reflexivity.
Qed.

(** [forward] computes the reference semantics, whatever the log. *)
Lemma pure_forward (o : SSD) x phase :
  pure_of (forward x phase) o = forward_spec o x phase.
Proof.
  unfold pure_of. rewrite forward_split.
  change (fst (bind (collect_sources x) (dispatch phase) (mkState o [])))
    with (pure_of (bind (collect_sources x) (dispatch phase)) o).
  rewrite pure_of_bind by steady_all.
  rewrite pure_collect_sources. unfold forward_spec.
  destruct (sources_spec o x) as [srcs | e]; [| reflexivity].
  cbn [bind Monad_result]. rewrite pure_dispatch.
  destruct (collect_sources_frame o x) as (-> & _ & _ & _ & Hl & Hc & _).
  now rewrite (Hl eq_refl), (Hc eq_refl).
Qed.

Lemma forward_run x phase (s : St) :
  forward x phase s =
  (forward_spec (this s) x phase,
   mkState (obj_of (forward x phase) (this s))
           (calls s ++ log_of (forward x phase) (this s))).
Proof. rewrite (steady_forward x phase s). now rewrite pure_forward. Qed.

(** *** Sequences *)

Lemma zip3_length {A B C} (a : list A) (b : list B) (c : list C) :
  length (zip3 a b c) = Nat.min (length a) (Nat.min (length b) (length c)).
Proof.
  revert b c. induction a as [| x a IH]; intros [| y b] [| z c];
    cbn [zip3 length]; try reflexivity; try lia.
  rewrite IH. lia.
Qed.


(** *** The builder *)

Section Builder.

Variable parse : Descriptor -> option Z -> Z -> result (list Layer).
Variable nc : Z.

Lemma nn_Conv2d_inv cin cout k p c :
  nn_Conv2d cin cout k p = Ok c ->
  0 <= cin /\ 0 <= cout /\
  c = mkConv2d cin cout k p (init_weight cout cin k) (init_bias cout).
Proof.
  unfold nn_Conv2d. destruct (conv2d_refusal cin cout k p); [discriminate |].
  destruct (Z.ltb_spec cin 0); [discriminate |].
  destruct (Z.ltb_spec cout 0); [discriminate |].
  destruct (Z.ltb_spec k 0); [discriminate |].
  cbn. intros [= <-]. auto.
Qed.

(** One iteration of the loop of [add_extras], when it succeeds. *)
Lemma add_extras_body_inv item b0 b1 :
  add_extras_body parse nc item b0 = Ok b1 ->
  buildable nc item /\
  exists new,
    parse (fst (fst item)) (cur_in_channels b0) (snd (fst item)) = Ok new /\
    b1 = mkBuilder (extra_layers b0 ++ new)
                   (loc_layers b0 ++ [loc_head item])
                   (conf_layers b0 ++ [conf_head nc item])
                   (Some (snd (fst item))).
Proof.
  destruct item as [[layer depth] box]. unfold add_extras_body, buildable.
  cbn [bind ret Monad_result fst snd].
  destruct (parse layer (cur_in_channels b0) depth) as [new | e];
    [| discriminate].
  destruct (nn_Conv2d depth (box * 4) 3 1) as [l | e] eqn:Hl; [| discriminate].
  destruct (nn_Conv2d depth (box * nc) 3 1) as [c | e] eqn:Hc;
    [| discriminate].
  apply nn_Conv2d_inv in Hl as (Hd & Hb4 & ->).
  apply nn_Conv2d_inv in Hc as (_ & Hbn & ->).
  intros [= <-]. split; [auto |]. exists new. split; reflexivity.
Qed.


Lemma add_extras_loop_inv :
  forall items b0 b1,
    for_each items (add_extras_body parse nc) b0 = Ok b1 ->
    Forall (buildable nc) items /\
    loc_layers b1 = loc_layers b0 ++ map loc_head items /\
    conf_layers b1 = conf_layers b0 ++ map (conf_head nc) items /\
    exists news,
      extra_layers b1 = extra_layers b0 ++ concat news /\
      parsed parse (cur_in_channels b0) items news.
Proof.
  induction items as [| item items IH]; intros b0 b1 H.
  - cbn in H. injection H as <-. rewrite !app_nil_r.
    repeat split; auto. exists []. cbn. now rewrite app_nil_r.
  - cbn [for_each bind Monad_result] in H.
    destruct (add_extras_body parse nc item b0) as [b' | e] eqn:Hb;
      [| discriminate].
    apply add_extras_body_inv in Hb as (Hok & new & Hp & ->).
    apply IH in H as (Hall & Hl & Hc & news & He & Hn).
    cbn [extra_layers loc_layers conf_layers cur_in_channels] in *.
    rewrite Hl, Hc, He, <- !app_assoc. cbn [map app].
    repeat split; auto.
    exists (new :: news). cbn [concat]. split; [reflexivity |].
    destruct item as [[layer depth] box]. cbn [parsed fst snd] in *. auto.
Qed.



(** The loop stops at a scale with a negative channel count, if not
    before. *)
Lemma add_extras_loop_negative :
  forall items b0,
    Exists (fun item => ~ buildable nc item) items ->
    is_ok (for_each items (add_extras_body parse nc) b0) = false.
Proof.
  intros items b0 Hex.
  destruct (for_each items (add_extras_body parse nc) b0) as [b1 | e] eqn:H;
    [| reflexivity].
  apply add_extras_loop_inv in H as (Hall & _).
  apply Exists_exists in Hex as (item & Hin & Hno).
  rewrite Forall_forall in Hall. elim Hno. auto.
Qed.

End Builder.

(** *** Shapes through a head *)

Lemma list_eqb_refl (l : list Z) : list_eqb l l = true.
Proof.
  induction l as [| a l IH]; [reflexivity |].
  cbn. now rewrite Z.eqb_refl.
Qed.

(** A 3x3 convolution with padding 1 keeps the spatial extent and the
    layout. *)
Lemma conv_of_forward cin cout (x : Tensor) b h w :
  0 < cin -> 0 < cout ->
  shape x = [b; cin; h; w] -> 1 <= h -> 1 <= w ->
  exists y,
    apply_layer (LConv2d (conv_of cin cout)) x = Ok y /\
    shape y = [b; cout; h; w] /\ contig y = contig x.
Proof.
  intros Hi Ho Hs Hh Hw. cbn [apply_layer]. unfold conv2d_forward.
  rewrite Hs, Z.eqb_refl. unfold conv2d_planes, degenerate.
  cbn [conv_of in_channels out_channels kernel_size padding].
  destruct (Z.leb_spec cin 0); [lia |].
  destruct (Z.leb_spec cout 0); [lia |].
  destruct (Z.leb_spec 3 (h + 2 * 1)); [| lia].
  destruct (Z.leb_spec 3 (w + 2 * 1)); [| lia].
  cbn [andb orb]. eexists. split; [reflexivity |]. cbn [shape contig app].
  split; [| reflexivity]. repeat f_equal; lia.
Qed.

(** Reshaping a head output [b, k*c, h, w] to [b, c, -1]. *)
Lemma view_head (y : Tensor) b c k h w :
  0 < b -> 0 < c ->
  contig y = true -> shape y = [b; k * c; h; w] ->
  view y [b; c; -1] = Ok (mkTensor [b; c; k * (h * w)] (data y) true).
Proof.
  intros Hb Hc Hy Hs. unfold view, infer_size, numel. rewrite Hy, Hs.
  cbn [existsb count_occ remove prod fold_right map].
  destruct (Z.ltb_spec b (-1)); [lia |].
  destruct (Z.ltb_spec c (-1)); [lia |].
  cbn [orb Z.ltb Z.compare].
  destruct (Z.eq_dec b (-1)); [lia |].
  destruct (Z.eq_dec c (-1)); [lia |].
  destruct (Z.eq_dec (-1) (-1)); [| congruence].
  destruct (Z.eq_dec (-1) b); [lia |].
  destruct (Z.eq_dec (-1) c); [lia |].
  cbn [prod fold_right].
  replace (b * (k * c * (h * (w * 1)))) with (k * (h * w) * (b * (c * 1)))
    by ring.
  assert (Hk : b * (c * 1) <> 0) by nia.
  destruct (Z.eqb_spec (b * (c * 1)) 0); [contradiction |].
  rewrite Z.mod_mul by assumption. cbn [Z.eqb].
  rewrite Z.div_mul by assumption.
  cbn [bind ret Monad_result].
  destruct (Z.eqb_spec b (-1)); [lia |].
  destruct (Z.eqb_spec c (-1)); [lia |].
  reflexivity.
Qed.

Lemma reshaped_conv_head cin k c (x : Tensor) b h w :
  0 < cin -> 0 < k -> contig x = true ->
  shape x = [b; cin; h; w] -> 1 <= h -> 1 <= w -> 0 < b -> 0 < c ->
  exists v,
    reshaped_head (LConv2d (conv_of cin (k * c))) x c = Ok v /\
    shape v = [b; c; k * (h * w)] /\ contig v = true.
Proof.
  intros Hi Hk Hx Hs Hh Hw Hb Hc.
  destruct (conv_of_forward cin (k * c) x b h w) as (y & Hy & Sy & Cy);
    try assumption; [nia |].
  unfold reshaped_head. rewrite Hy. cbn [bind Monad_result].
  unfold size. rewrite Hs. cbn [nth_error].
  rewrite (view_head y b c k h w) by congruence.
  eexists. split; [reflexivity |]. split; reflexivity.
Qed.

(** Concatenation of three-dimensional tensors along the trailing axis. *)
Lemma cat_trailing (ts : list Tensor) b c (ns : list Z) :
  ts <> [] -> map shape ts = map (fun n => [b; c; n]) ns ->
  exists t,
    cat ts 2 = Ok t /\ shape t = [b; c; sum ns] /\ contig t = true.
Proof.
  intros Hne Hs.
  assert (Hall : forall t, In t ts -> exists n, shape t = [b; c; n]).
  { intros t Ht. apply (in_map shape) in Ht. rewrite Hs in Ht.
    apply in_map_iff in Ht as (n & <- & _). eauto. }
  assert (Hsum : map (fun t => nth 2 (shape t) 0) ts = ns).
  { clear Hne Hall. revert ns Hs.
    induction ts as [| t ts IH]; intros [| n ns] Hs; try discriminate;
      [reflexivity |].
    cbn [map] in *. injection Hs as H1 H2. rewrite H1. cbn [nth].
    f_equal. auto. }
  destruct ts as [| t0 ts']; [contradiction |].
  destruct (Hall t0 (or_introl eq_refl)) as (n0 & H0).
  unfold cat, cat_with.
  assert (Hc : forallb (cat_compatible 2 t0) (t0 :: ts') = true).
  { apply forallb_forall. intros t Ht. destruct (Hall t Ht) as (n & Hn).
    unfold cat_compatible. rewrite Hn, H0. cbn [length firstn skipn].
    now rewrite Nat.eqb_refl, !list_eqb_refl. }
  rewrite Hc, H0. cbn [length Nat.ltb Nat.leb andb].
  eexists. split; [reflexivity |]. cbn [shape contig firstn skipn app].
  split; [| reflexivity]. now rewrite Hsum.
Qed.

(** The heads the builder makes, applied to sources of the configured
    depths: every scale yields [b, 4, box*h*w] and [b, nc, box*h*w]. *)
Lemma heads_on_sources nc b :
  0 < b -> 1 <= nc ->
  forall ds depths mbox hw (srcs : list Tensor),
    length depths = length ds -> length mbox = length ds ->
    length hw = length ds ->
    Forall (fun d => 0 < d) depths ->
    Forall (fun box => 0 < box) mbox ->
    Forall (fun x => contig x = true) srcs ->
    Forall (fun p => 1 <= fst p /\ 1 <= snd p) hw ->
    map shape srcs = source_shapes b depths hw ->
    exists vws,
      heads_spec nc (zip3 srcs
                          (map loc_head (zip3 ds depths mbox))
                          (map (conf_head nc) (zip3 ds depths mbox)))
      = Ok vws /\
      length vws = length ds /\
      map (fun vw => shape (fst vw)) vws =
        map (fun n => [b; 4; n])
            (map (fun bhw => fst bhw * (fst (snd bhw) * snd (snd bhw)))
                 (combine mbox hw)) /\
      map (fun vw => shape (snd vw)) vws =
        map (fun n => [b; nc; n])
            (map (fun bhw => fst bhw * (fst (snd bhw) * snd (snd bhw)))
                 (combine mbox hw)).
Proof.
  intros Hb Hnc.
  induction ds as [| d ds IH];
    intros [| depth depths] [| box mbox] [| [h w] hw] srcs Hd Hm Hh
           Hdep Hbox Hcon Hhw Hs;
    try discriminate.
  - exists []. repeat split; destruct srcs; reflexivity.
  - destruct srcs as [| x srcs]; [discriminate |].
    unfold source_shapes in Hs. cbn [map combine fst snd] in Hs.
    injection Hs as Hx Hrest.
    inversion Hhw as [| ? ? [Hh1 Hw1] Hhw']; subst. cbn [fst snd] in *.
    inversion Hdep as [| ? ? Hdep1 Hdep']; subst.
    inversion Hbox as [| ? ? Hbox1 Hbox']; subst.
    inversion Hcon as [| ? ? Hcon1 Hcon']; subst.
    cbn [length] in *.
    destruct (IH depths mbox hw srcs) as (vws & Hv & Hlen & Hl & Hc);
      try lia; auto.
    cbn [zip3 map heads_spec]. rewrite Hv.
    unfold loc_head at 1, conf_head at 1. cbn [fst snd].
    destruct (reshaped_conv_head depth box 4 x b h w) as (v & Ev & Sv & _);
      try assumption; try lia.
    destruct (reshaped_conv_head depth box nc x b h w) as (u & Eu & Su & _);
      try assumption; try lia.
    rewrite Ev, Eu. cbn [bind ret Monad_result].
    exists ((v, u) :: vws). cbn [map length combine fst snd].
    rewrite Hl, Hc, Sv, Su, Hlen. repeat split; reflexivity.
Qed.

(** *** Counting the sources *)

Lemma chain_length (ls : list Layer) :
  forall x outs, chain ls x = Ok outs -> length outs = length ls.
Proof.
  induction ls as [| l ls IH]; intros x outs H; cbn [chain] in H.
  - now injection H as <-.
  - cbn [bind ret Monad_result] in H.
    destruct (apply_layer l x) as [y | e]; [| discriminate].
    destruct (chain ls y) as [ys | e] eqn:Hy; [| discriminate].
    injection H as <-. cbn [length]. f_equal. eauto.
Qed.

Lemma taps_length fl (outs : list Tensor) :
  forall k,
    length (taps fl k outs) =
    length (filter (contains fl) (seq k (length outs))).
Proof.
  induction outs as [| y outs IH]; intros k; [reflexivity |].
  cbn [taps length seq filter].
  destruct (contains fl k); cbn [length]; now rewrite IH.
Qed.

Lemma contains_spec fl k :
  contains fl k = true <-> In (Z.of_nat k) (tap_indices fl).
Proof.
  unfold contains. induction fl as [| [j | s] fl IH];
    cbn [existsb tap_indices descriptor_eqb In].
  - split; [discriminate | contradiction].
  - rewrite orb_true_iff, IH, Z.eqb_eq. intuition congruence.
  - rewrite orb_false_l. exact IH.
Qed.

(** Distinct taps inside the backbone are each met exactly once by the
    loop over the stage indices. *)
Lemma tapped_count fl n :
  NoDup (tap_indices fl) ->
  Forall (fun k => 0 <= k < Z.of_nat n) (tap_indices fl) ->
  length (filter (contains fl) (seq 0 n)) = length (tap_indices fl).
Proof.
  intros Hnd Hr.
  set (L := filter (contains fl) (seq 0 n)).
  assert (HL : NoDup (map Z.of_nat L)).
  { apply Finite.Injective_map_NoDup.
    - intros a b. apply Nat2Z.inj.
    - apply NoDup_filter, seq_NoDup. }
  rewrite <- (length_map Z.of_nat L).
  apply Nat.le_antisymm; apply NoDup_incl_length; try assumption.
  - intros z Hz. apply in_map_iff in Hz as (k & <- & Hk).
    apply filter_In in Hk as [_ Hk]. now apply contains_spec.
  - intros z Hz. rewrite Forall_forall in Hr. specialize (Hr z Hz).
    apply in_map_iff. exists (Z.to_nat z).
    rewrite Z2Nat.id by lia. split; [reflexivity |].
    apply filter_In. split.
    + apply in_seq. lia.
    + apply contains_spec. now rewrite Z2Nat.id by lia.
Qed.

Lemma zip3_descriptors (ds : list Descriptor) :
  forall (depths mbox : list Z),
    length depths = length ds -> length mbox = length ds ->
    map (fun item => fst (fst item)) (zip3 ds depths mbox) = ds.
Proof.
  induction ds as [| d ds IH]; intros [| depth depths] [| box mbox] H1 H2;
    try discriminate; [reflexivity |].
  cbn [zip3 map fst]. f_equal. apply IH; cbn [length] in *; lia.
Qed.

(** With a parser of one stage per block name, taps and extra stages
    together are as many as the scales. *)
Lemma parsed_count
    (parse : Descriptor -> option Z -> Z -> result (list Layer)) :
  one_stage_parser parse ->
  forall items cur news,
    parsed parse cur items news ->
    (length (tap_indices (map (fun item => fst (fst item)) items))
     + length (concat news) = length items)%nat.
Proof.
  intros Hp. induction items as [| [[layer depth] box] items IH];
    intros cur [| new news] H; cbn [parsed] in H; try contradiction.
  - reflexivity.
  - destruct H as [Hnew Hrest]. specialize (IH _ _ Hrest).
    cbn [map fst concat length]. rewrite length_app.
    specialize (Hp layer cur depth new Hnew). destruct layer as [k | s].
    + subst new. cbn [tap_indices length]. lia.
    + destruct Hp as (l & ->). cbn [tap_indices length]. lia.
Qed.

(** What a successful [build_ssd] returns. *)
Lemma build_ssd_inv
    (parse : Descriptor -> option Z -> Z -> result (list Layer))
    base_f fl mbox nc (det : SSD) :
  build_ssd parse base_f fl mbox nc = Ok det ->
  let items := zip3 (fst fl) (snd fl) mbox in
  exists news,
    det = mkSSD nc (base_f tt) (concat news) (map loc_head items)
                (map (conf_head nc) items) (LSoftmax (-1)) (fst fl)
    /\ parsed parse None items news
    /\ Forall (buildable nc) items.
Proof.
  unfold build_ssd, add_extras. cbn [bind ret Monad_result].
  destruct (for_each _ _ _) as [b1 | e] eqn:Hloop; [| discriminate].
  intros [= <-].
  apply add_extras_loop_inv in Hloop as (Hall & Hl & Hc & news & He & Hn).
  cbn [extra_layers loc_layers conf_layers cur_in_channels app] in *.
  exists news. unfold SSD_init. cbn [fst snd]. rewrite Hl, Hc, He. auto.
Qed.

(** *** The log of the loops *)










(** The log of a whole run of [forward]. *)
Lemma log_forward (o : SSD) x phase :
  log_of (forward x phase) o =
  log_of (collect_sources x) o
  ++ match sources_spec o x with
     | Ok srcs => log_of (dispatch phase srcs) (obj_of (collect_sources x) o)
     | Raise _ => []
     end.
Proof.
  unfold log_of at 1. rewrite forward_split.
  change (calls (snd (bind (collect_sources x) (dispatch phase)
                           (mkState o []))))
    with (log_of (bind (collect_sources x) (dispatch phase)) o).
  rewrite log_of_bind by steady_all. now rewrite pure_collect_sources.
Qed.

(** The heads, the class count and the taps after the collection of the
    sources are those before it. *)
Lemma collect_sources_heads (o : SSD) x :
  let o1 := obj_of (collect_sources x) o in
  num_classes o1 = num_classes o /\ loc o1 = loc o /\ conf o1 = conf o.
Proof.
  destruct (collect_sources_frame o x) as (Hn & _ & _ & _ & Hl & Hc & _).
  cbv zeta. rewrite Hn, (Hl eq_refl), (Hc eq_refl). auto.
Qed.

(** *** The phase *)

Lemma dispatch_not_feature phase sources :
  String.eqb phase "feature" = false ->
  dispatch phase sources = dispatch "eval" sources.
Proof. intros H. unfold dispatch. now rewrite H. Qed.

Lemma forward_not_feature x phase s :
  String.eqb phase "feature" = false ->
  forward x phase s = forward x "eval" s.
Proof.
  intros H. rewrite !forward_split, !bind_M_run.
  destruct (collect_sources x s) as [[srcs | e] s1]; [| reflexivity].
  now rewrite (dispatch_not_feature phase).
Qed.

Lemma forward_spec_not_feature (o : SSD) x phase :
  String.eqb phase "feature" = false ->
  forward_spec o x phase =
  (sources <- sources_spec o x ;;
   detect_spec (num_classes o) (zip3 sources (loc o) (conf o))).
Proof. intros H. unfold forward_spec. now rewrite H. Qed.
















(** C3. In phase "feature", [forward] returns the list of sources (the
    tapped backbone outputs in stage order, then the outputs of the extra
    stages in order) and stops there: the state it leaves is the one left
    by the collection of the sources, every module it called belongs to
    the backbone or to the extra stages, so no localisation or
    classification head was invoked; the list has one entry per tapped
    backbone stage and one per extra stage. *)
Theorem forward_feature_returns_sources x (s : St) :
  let r := forward x "feature" s in
  fst r = (sources <- sources_spec (this s) x ;; ret (Features sources))
  /\ snd r = snd (collect_sources x s)
  /\ (exists l, calls (snd r) = calls s ++ l
                /\ Forall (fun e => e = Base \/ e = Extras) l)
  /\ (forall srcs,
        fst r = Ok (Features srcs) ->
        length srcs =
        (length (filter (contains (feature_layer (this s)))
                        (range (length (base (this s)))))
         + length (extras (this s)))%nat).
Proof.
  cbv zeta.
  assert (H1 : fst (forward x "feature" s) =
               (sources <- sources_spec (this s) x ;; ret (Features sources))).
  { rewrite forward_run. cbn [fst]. unfold forward_spec.
    destruct (sources_spec (this s) x); reflexivity. }
  assert (H2 : snd (forward x "feature" s) = snd (collect_sources x s)).
  { rewrite forward_split, bind_M_run.
    destruct (collect_sources x s) as [[srcs | e] s1]; reflexivity. }
  split; [exact H1 |]. split; [exact H2 |]. split.
  - rewrite H2, (steady_collect_sources x s). cbn [snd calls].
    eexists. split; [reflexivity |].
    apply emits_collect_sources; auto.
  - intros srcs Hr. rewrite H1 in Hr. unfold sources_spec in Hr.
    cbn [bind ret Monad_result] in Hr.
    destruct (chain (base (this s)) x) as [bouts | e] eqn:Hb;
      [| discriminate].
    destruct (chain (extras (this s)) (last bouts x)) as [eouts | e] eqn:He;
      [| discriminate].
    injection Hr as <-.
    rewrite length_app, taps_length.
    rewrite (chain_length _ _ _ Hb), (chain_length _ _ _ He). reflexivity.
Qed.

(** C9. For two phases that both differ from "feature", [forward] does
    the same thing: same result, same final state and hence same calls,
    namely the head computation on the collected sources.  The phase is
    only compared with "feature". *)
Theorem forward_phase_only_feature_test x p1 p2 (s : St) :
  p1 <> "feature" -> p2 <> "feature" ->
  forward x p1 s = forward x p2 s
  /\ fst (forward x p1 s) =
     (sources <- sources_spec (this s) x ;;
      detect_spec (num_classes (this s))
                  (zip3 sources (loc (this s)) (conf (this s)))).
Proof.
  intros H1 H2.
  apply String.eqb_neq in H1, H2. split.
  - now rewrite (forward_not_feature x p1), (forward_not_feature x p2).
  - rewrite forward_run. cbn [fst]. now apply forward_spec_not_feature.
Qed.

(** C4 (amended). A phase outside "train", "eval" and "feature" raises no
    error of its own: [forward] then does exactly what it does in phase
    "eval" (and in phase "train"), that is, it runs the heads. *)
Theorem forward_unknown_phase_as_eval x phase (s : St) :
  phase <> "train" -> phase <> "eval" -> phase <> "feature" ->
  forward x phase s = forward x "eval" s
  /\ forward x phase s = forward x "train" s.
Proof.
  intros _ _ H. apply String.eqb_neq in H. split.
  - now apply forward_not_feature.
  - rewrite (forward_not_feature x phase) by assumption.
    symmetry. now apply forward_not_feature.
Qed.

(** *** The head phase *)

Lemma emits_dispatch (P : Slot -> Prop) phase sources :
  P Loc -> P Conf -> emits P (dispatch phase sources).
Proof.
  intros H1 H2. unfold dispatch.
  destruct (String.eqb phase "feature"); [now apply emits_quiet |].
  apply emits_bind; [steady_all | steady_all | now apply emits_quiet |].
  intros ls.
  apply emits_bind; [steady_all | steady_all | now apply emits_quiet |].
  intros cs.
  apply emits_bind; [steady_all | steady_all | |].
  - apply emits_for_each; auto using steady_head_body, emits_head_body.
  - intros [lo co].
    apply emits_bind; [steady_all | steady_all | now apply emits_quiet |].
    intros t.
    apply emits_bind; [steady_all | steady_all | now apply emits_quiet |].
    intros u. now apply emits_quiet.
Qed.

Lemma emits_forward (P : Slot -> Prop) x phase :
  P Base -> P Extras -> P Loc -> P Conf -> emits P (forward x phase).
Proof.
  intros H1 H2 H3 H4 o. unfold log_of. rewrite forward_split.
  change (Forall P (log_of (bind (collect_sources x) (dispatch phase)) o)).
  apply emits_bind; try steady_all; intros;
    auto using emits_collect_sources, emits_dispatch.
Qed.

(** [forward] once the sources are known. *)
Lemma forward_after_sources x phase (s s1 : St) srcs :
  collect_sources x s = (Ok srcs, s1) ->
  (num_classes (this s1) = num_classes (this s)
   /\ loc (this s1) = loc (this s) /\ conf (this s1) = conf (this s))
  /\ sources_spec (this s) x = Ok srcs
  /\ forward x phase s =
     (pure_of (dispatch phase srcs) (this s1),
      mkState (obj_of (dispatch phase srcs) (this s1))
              (calls s1 ++ log_of (dispatch phase srcs) (this s1))).
Proof.
  intros H.
  assert (Hs := steady_collect_sources x s). rewrite H in Hs.
  injection Hs as Hr Hs1.
  assert (Ht : this s1 = obj_of (collect_sources x) (this s))
    by (rewrite Hs1; reflexivity).
  split; [rewrite Ht; apply collect_sources_heads |]. split.
  - now rewrite <- pure_collect_sources.
  - rewrite forward_split, bind_M_run, H.
    now rewrite (steady_dispatch phase srcs s1).
Qed.

Lemma view_data (y v : Tensor) sizes :
  view y sizes = Ok v -> data v = data y.
Proof.
  unfold view. destruct (contig y); [| discriminate].
  cbn [bind ret Monad_result].
  destruct (infer_size sizes (numel y)); [| discriminate].
  now intros [= <-].
Qed.

Lemma reshaped_head_data l (x v : Tensor) c :
  reshaped_head l x c = Ok v ->
  exists y, apply_layer l x = Ok y /\ data v = data y.
Proof.
  unfold reshaped_head. cbn [bind Monad_result].
  destruct (apply_layer l x) as [y | e]; [| discriminate].
  destruct (size x 0) as [b | e]; [| discriminate].
  intros H. exists y. split; [reflexivity |]. eapply view_data; eauto.
Qed.

Lemma heads_spec_raw nc :
  forall triples vws,
    heads_spec nc triples = Ok vws -> Forall2 raw_outputs triples vws.
Proof.
  induction triples as [| [[x l] c] rest IH]; intros vws H;
    cbn [heads_spec bind ret Monad_result] in H.
  - injection H as <-. constructor.
  - destruct (reshaped_head l x 4) as [v | e] eqn:Hv; [| discriminate].
    destruct (reshaped_head c x nc) as [w | e] eqn:Hw; [| discriminate].
    destruct (heads_spec nc rest) as [vws' | e] eqn:Hr; [| discriminate].
    injection H as <-. constructor; [| auto].
    apply reshaped_head_data in Hv as (y & Hy & Dy).
    apply reshaped_head_data in Hw as (z & Hz & Dz).
    exists y, z. cbn [fst snd]. auto.
Qed.


(** A successful [detect_spec], taken apart. *)
Lemma detect_spec_inv nc triples (lo co : Tensor) :
  detect_spec nc triples = Ok (Detections lo co) ->
  exists vws tl tc,
    heads_spec nc triples = Ok vws
    /\ cat (map fst vws) 2 = Ok tl /\ cat (map snd vws) 2 = Ok tc
    /\ lo = contiguous tl /\ co = contiguous tc.
Proof.
  unfold detect_spec. cbn [bind ret Monad_result].
  destruct (heads_spec nc triples) as [vws | e]; [| discriminate].
  destruct (cat (map fst vws) 2) as [tl | e] eqn:Hl; [| discriminate].
  destruct (cat (map snd vws) 2) as [tc | e] eqn:Hc; [| discriminate].
  intros [= <- <-]. exists vws, tl, tc. repeat split; auto.
Qed.

(** C8. In a phase other than "feature" (so in "train" and "eval"),
    [forward] never calls the softmax that [__init__] stores on the
    detector, nor any module besides the backbone, the extra stages and
    the heads; the tensors it returns are the concatenation of the
    reshaped head outputs, whose elements are those the head modules
    produced. *)
Theorem forward_applies_no_softmax x phase (s : St) :
  phase <> "feature" ->
  (forall (b e : list Layer) h fl nc,
      softmax (SSD_init b e h fl nc) = LSoftmax (-1))
  /\ (exists l, calls (snd (forward x phase s)) = calls s ++ l
                /\ ~ In Softmax l)
  /\ (forall lo co,
        fst (forward x phase s) = Ok (Detections lo co) ->
        exists srcs vws tl tc,
          sources_spec (this s) x = Ok srcs
          /\ heads_spec (num_classes (this s))
                        (zip3 srcs (loc (this s)) (conf (this s))) = Ok vws
          /\ Forall2 raw_outputs
                     (zip3 srcs (loc (this s)) (conf (this s))) vws
          /\ cat (map fst vws) 2 = Ok tl /\ cat (map snd vws) 2 = Ok tc
          /\ lo = contiguous tl /\ co = contiguous tc
          /\ data lo = data tl /\ data co = data tc).
Proof.
  intros Hp. apply String.eqb_neq in Hp.
  split; [reflexivity |]. split.
  - rewrite forward_run. cbn [snd calls]. eexists. split; [reflexivity |].
    intros Hin.
    assert (E : emits (fun e => e <> Softmax) (forward x phase))
      by (apply emits_forward; discriminate).
    specialize (E (this s)). rewrite Forall_forall in E.
    exact (E Softmax Hin eq_refl).
  - intros lo co H. rewrite forward_run in H. cbn [fst] in H.
    rewrite forward_spec_not_feature in H by assumption.
    cbn [bind Monad_result] in H.
    destruct (sources_spec (this s) x) as [srcs | e] eqn:Hs; [| discriminate].
    apply detect_spec_inv in H as (vws & tl & tc & Hv & Hl & Hc & -> & ->).
    exists srcs, vws, tl, tc.
    repeat split; try assumption; try reflexivity.
    eapply heads_spec_raw; eassumption.
Qed.


(** *** Built detectors *)

Section Built.

Variable parse : Descriptor -> option Z -> Z -> result (list Layer).
Variable base_f : unit -> list Layer.
Variables (fl : list Descriptor * list Z) (mbox : list Z) (nc : Z).
Variable det : SSD.
Hypothesis Hvalid : valid_config (length (base_f tt)) fl mbox nc.
Hypothesis Hbuild : build_ssd parse base_f fl mbox nc = Ok det.

Lemma built_items_length :
  length (zip3 (fst fl) (snd fl) mbox) = length mbox.
Proof.
  rewrite zip3_length. destruct Hvalid as [H1 H2 _ _ _ _]. lia.
Qed.

Lemma built_heads_length :
  length (loc det) = length mbox /\ length (conf det) = length mbox.
Proof.
  destruct (build_ssd_inv _ _ _ _ _ _ Hbuild) as (news & -> & _ & _).
  cbn [loc conf]. rewrite !length_map. split; apply built_items_length.
Qed.

Lemma built_sources_count x srcs :
  one_stage_parser parse ->
  sources_spec det x = Ok srcs -> length srcs = length mbox.
Proof.
  intros Hp Hs.
  destruct (build_ssd_inv _ _ _ _ _ _ Hbuild) as (news & -> & Hn & _).
  unfold sources_spec in Hs.
  cbn [bind ret Monad_result base extras feature_layer] in Hs.
  destruct (chain (base_f tt) x) as [bouts | e] eqn:Hb; [| discriminate].
  destruct (chain (concat news) (last bouts x)) as [eouts | e] eqn:He;
    [| discriminate].
  injection Hs as <-.
  rewrite length_app, taps_length.
  rewrite (chain_length _ _ _ Hb), (chain_length _ _ _ He).
  destruct Hvalid as [H1 H2 H3 H4 _ _].
  rewrite tapped_count by assumption.
  pose proof (parsed_count parse Hp _ _ _ Hn) as Hc.
  rewrite zip3_descriptors in Hc by assumption.
  rewrite Hc. apply built_items_length.
Qed.

End Built.

(** C6. For a detector built from a valid configuration, with a parser
    that yields one stage per block name and none per tap, the
    localisation heads, the classification heads and the box counts are
    equally many, and so are the sources collected by any run of
    [forward] that gets past the backbone and the extra stages, in
    particular the list returned in phase "feature". *)
Theorem sources_match_heads
    (parse : Descriptor -> option Z -> Z -> result (list Layer))
    base_f fl mbox nc (det : SSD) x (s : St) :
  valid_config (length (base_f tt)) fl mbox nc ->
  one_stage_parser parse ->
  build_ssd parse base_f fl mbox nc = Ok det ->
  this s = det ->
  length (loc det) = length mbox
  /\ length (conf det) = length mbox
  /\ (forall srcs,
        fst (collect_sources x s) = Ok srcs -> length srcs = length mbox)
  /\ (forall srcs,
        fst (forward x "feature" s) = Ok (Features srcs) ->
        length srcs = length mbox).
Proof.
  intros Hv Hp Hb Hs.
  destruct (built_heads_length parse base_f fl mbox nc det Hv Hb) as [Hl Hc].
  split; [exact Hl |]. split; [exact Hc |]. split.
  - intros srcs H. rewrite (steady_collect_sources x s) in H. cbn [fst] in H.
    rewrite pure_collect_sources, Hs in H.
    eapply built_sources_count; eauto.
  - intros srcs H. rewrite forward_run in H. cbn [fst] in H.
    unfold forward_spec in H. rewrite Hs in H.
    destruct (sources_spec det x) as [srcs' | e] eqn:Hsp; [| discriminate].
    cbn in H. injection H as <-.
    eapply built_sources_count; eauto.
Qed.

(** C1 (amended). For a detector built from a valid configuration with
    at least one scale and positive depths, in phase "train" or "eval",
    on a batch of [b > 0] images, when the collected sources are
    contiguous, one per scale, the source of scale [i] having shape
    [b, depth_i, h_i, w_i] with [h_i, w_i >= 1], [forward] returns a
    localisation tensor of shape [b, 4, total] and a confidence tensor of
    shape [b, num_classes, total], where [total] is the sum over the
    scales of box_count_i * h_i * w_i; both are contiguous, and each is
    the concatenation along axis 2 of the per-scale reshaped head
    outputs. *)
Theorem forward_output_shapes
    (parse : Descriptor -> option Z -> Z -> result (list Layer))
    base_f fl mbox nc (det : SSD) x phase (s s1 : St) srcs b hw :
  valid_config (length (base_f tt)) fl mbox nc ->
  build_ssd parse base_f fl mbox nc = Ok det ->
  this s = det ->
  phase = "train" \/ phase = "eval" ->
  collect_sources x s = (Ok srcs, s1) ->
  mbox <> [] -> 0 < b ->
  Forall (fun d => 0 < d) (snd fl) ->
  length hw = length mbox ->
  Forall (fun p => 1 <= fst p /\ 1 <= snd p) hw ->
  Forall (fun src => contig src = true) srcs ->
  map shape srcs = source_shapes b (snd fl) hw ->
  exists lo co vws tl tc,
    fst (forward x phase s) = Ok (Detections lo co)
    /\ shape lo = [b; 4; total_anchors mbox hw]
    /\ shape co = [b; nc; total_anchors mbox hw]
    /\ contig lo = true /\ contig co = true
    /\ heads_spec nc (zip3 srcs (loc det) (conf det)) = Ok vws
    /\ length vws = length mbox
    /\ cat (map fst vws) 2 = Ok tl /\ cat (map snd vws) 2 = Ok tc
    /\ lo = contiguous tl /\ co = contiguous tc.
Proof.
  intros Hv Hb Hs Hphase Hsrc Hne Hpos Hdep Hhw Hdims Hcon Hshapes.
  assert (Hp : String.eqb phase "feature" = false)
    by (destruct Hphase as [-> | ->]; reflexivity).
  destruct (build_ssd_inv _ _ _ _ _ _ Hb) as (news & Hdet & _ & _).
  destruct Hv as [H1 H2 _ _ Hbox Hnc].
  destruct (heads_on_sources nc b Hpos Hnc (fst fl) (snd fl) mbox hw srcs)
    as (vws & Hheads & Hlen & Hlo & Hco); try assumption; try lia.
  assert (Hvne : vws <> []).
  { intros ->. cbn in Hlen. destruct mbox; [contradiction | cbn in H2; lia]. }
  destruct (cat_trailing (map fst vws) b 4
              (map (fun bhw => fst bhw * (fst (snd bhw) * snd (snd bhw)))
                   (combine mbox hw)))
    as (tl & Htl & Stl & _).
  { destruct vws; [contradiction | discriminate]. }
  { rewrite map_map. exact Hlo. }
  destruct (cat_trailing (map snd vws) b nc
              (map (fun bhw => fst bhw * (fst (snd bhw) * snd (snd bhw)))
                   (combine mbox hw)))
    as (tc & Htc & Stc & _).
  { destruct vws; [contradiction | discriminate]. }
  { rewrite map_map. exact Hco. }
  assert (Hh : heads_spec nc (zip3 srcs (loc det) (conf det)) = Ok vws).
  { rewrite Hdet. cbn [loc conf]. exact Hheads. }
  exists (contiguous tl), (contiguous tc), vws, tl, tc.
  destruct (forward_after_sources x phase s s1 srcs Hsrc)
    as ((Hn1 & Hl1 & Hc1) & _ & Hf).
  repeat split; try assumption; try reflexivity; try lia.
  rewrite Hf. cbn [fst]. rewrite pure_dispatch, Hp, Hn1, Hl1, Hc1, Hs.
  unfold detect_spec.
  replace (num_classes det) with nc by (rewrite Hdet; reflexivity).
  rewrite Hh. cbn [bind Monad_result]. rewrite Htl, Htc. reflexivity.
Qed.

(** C5. When [add_extras] returns, the backbone is handed back as it is;
    for every scale [(layer, depth, box)] of the zipped configuration the
    localisation head is a convolution with in_channels = depth,
    out_channels = box * 4, kernel 3, padding 1 and the classification
    head one with in_channels = depth, out_channels = box * num_classes,
    kernel 3, padding 1, each at the position of its scale in its list;
    the extra stages are those the parser returned, scale after scale,
    when called with the running channel count: none for the first scale,
    the depth of the previous scale afterwards. *)
Theorem add_extras_builds_heads
    (parse : Descriptor -> option Z -> Z -> result (list Layer))
    (base0 : list Layer) fl mbox nc b' e ls cs :
  add_extras parse base0 fl mbox nc = Ok (b', e, (ls, cs)) ->
  let items := zip3 (fst fl) (snd fl) mbox in
  b' = base0
  /\ ls = map loc_head items
  /\ cs = map (conf_head nc) items
  /\ (exists news, e = concat news /\ parsed parse None items news)
  /\ (forall i layer depth box,
        nth_error items i = Some (layer, depth, box) ->
        exists l c,
          nth_error ls i = Some (LConv2d l)
          /\ nth_error cs i = Some (LConv2d c)
          /\ in_channels l = depth /\ out_channels l = box * 4
          /\ kernel_size l = 3 /\ padding l = 1
          /\ in_channels c = depth /\ out_channels c = box * nc
          /\ kernel_size c = 3 /\ padding c = 1).
Proof.
  unfold add_extras. cbn [bind ret Monad_result].
  destruct (for_each _ _ _) as [b1 | ex] eqn:Hloop; [| discriminate].
  intros [= <- <- <- <-].
  apply add_extras_loop_inv in Hloop as (_ & Hl & Hc & news & He & Hn).
  cbn [extra_layers loc_layers conf_layers cur_in_channels app] in *.
  repeat split; try assumption.
  - exists news. auto.
  - intros i layer depth box Hi.
    exists (conv_of depth (box * 4)), (conv_of depth (box * nc)).
    rewrite Hl, Hc, !nth_error_map, Hi. repeat split; reflexivity.
Qed.


(** *** Further properties of [forward] *)

Lemma sources_spec_length (o : SSD) x srcs :
  sources_spec o x = Ok srcs ->
  length srcs =
  (length (filter (contains (feature_layer o)) (range (length (base o))))
   + length (extras o))%nat.
Proof.
  unfold sources_spec. cbn [bind ret Monad_result]. intros H.
  destruct (chain (base o) x) as [bouts | e] eqn:Hb; [| discriminate].
  destruct (chain (extras o) (last bouts x)) as [eouts | e] eqn:He;
    [| discriminate].
  injection H as <-.
  rewrite length_app, taps_length.
  now rewrite (chain_length _ _ _ Hb), (chain_length _ _ _ He).
Qed.


(** An exception raised by a backbone stage or by an extra stage leaves
    [forward] unchanged, whatever the phase, and no head has been called
    by then. *)
Theorem forward_stage_error_propagates x phase (s : St) e :
  chain (base (this s)) x = Raise e
  \/ (exists bouts, chain (base (this s)) x = Ok bouts
                    /\ chain (extras (this s)) (last bouts x) = Raise e) ->
  fst (forward x phase s) = Raise e
  /\ exists l, calls (snd (forward x phase s)) = calls s ++ l
               /\ Forall (fun c => c = Base \/ c = Extras) l.
Proof.
  intros H.
  assert (Hs : sources_spec (this s) x = Raise e).
  { unfold sources_spec. destruct H as [-> | (bouts & -> & He)];
      [reflexivity |].
    cbn [bind Monad_result]. now rewrite He. }
  rewrite forward_run. cbn [fst snd calls]. split.
  - unfold forward_spec. now rewrite Hs.
  - eexists. split; [reflexivity |].
    rewrite log_forward, Hs, app_nil_r.
    apply emits_collect_sources; auto.
Qed.

Lemma detect_spec_nil nc :
  detect_spec nc [] = (Raise cat_empty_error : result (Output elt)).
Proof. reflexivity. Qed.

Lemma zip3_nil {A B C} (a : list A) (b : list B) (c : list C) :
  a = [] \/ b = [] \/ c = [] -> zip3 a b c = [].
Proof.
  intros [-> | [-> | ->]]; [reflexivity | now destruct a |].
  destruct a; [reflexivity | now destruct b].
Qed.

(** With no source, no localisation head or no classification head, the
    head loop does nothing and [forward] raises, in every phase but
    "feature", the exception with which the engine refuses to concatenate
    an empty list. *)
Theorem forward_without_scales_raises x phase (s : St) srcs :
  phase <> "feature" ->
  sources_spec (this s) x = Ok srcs ->
  srcs = [] \/ loc (this s) = [] \/ conf (this s) = [] ->
  fst (forward x phase s) = Raise cat_empty_error.
Proof.
  intros Hp Hs Hnil. apply String.eqb_neq in Hp.
  rewrite forward_run. cbn [fst].
  rewrite forward_spec_not_feature by assumption. rewrite Hs.
  cbn [bind Monad_result]. rewrite zip3_nil by assumption.
  apply detect_spec_nil.
Qed.

(** The kind of value [forward] returns is decided by the phase alone:
    the list of sources exactly in phase "feature", the pair of tensors
    in any other phase. *)
Theorem forward_result_kind x phase (s : St) :
  match fst (forward x phase s) with
  | Ok (Features srcs) =>
      phase = "feature" /\ sources_spec (this s) x = Ok srcs
  | Ok (Detections _ _) => phase <> "feature"
  | Raise _ => True
  end.
Proof.
  rewrite forward_run. cbn [fst]. unfold forward_spec.
  destruct (sources_spec (this s) x) as [srcs | e]; [| exact I].
  cbn [bind Monad_result].
  destruct (String.eqb_spec phase "feature") as [-> | Hne].
  - cbn. auto.
  - destruct (detect_spec _ _) as [[srcs' | lo co] | e] eqn:Hd; auto.
    unfold detect_spec in Hd. cbn [bind ret Monad_result] in Hd.
    destruct (heads_spec _ _); [| discriminate].
    destruct (cat (map fst _) 2); [| discriminate].
    destruct (cat (map snd _) 2); discriminate.
Qed.

(** The heads of phases "train" and "eval" work on the very sources that
    phase "feature" returns: what [forward] returns in another phase is
    the head computation on the list it returns in phase "feature". *)
Theorem forward_heads_on_feature_sources x phase (s : St) srcs :
  phase <> "feature" ->
  fst (forward x "feature" s) = Ok (Features srcs) ->
  fst (forward x phase s) =
  detect_spec (num_classes (this s))
              (zip3 srcs (loc (this s)) (conf (this s))).
Proof.
  intros Hp H. apply String.eqb_neq in Hp.
  rewrite forward_run in *. cbn [fst] in *.
  rewrite forward_spec_not_feature by assumption.
  unfold forward_spec in H.
  destruct (sources_spec (this s) x) as [srcs' | e]; [| discriminate].
  cbn in H. injection H as ->. reflexivity.
Qed.

(** *** Taps *)

Lemma contains_ext fl1 fl2 k :
  (In (Z.of_nat k) (tap_indices fl1) <-> In (Z.of_nat k) (tap_indices fl2)) ->
  contains fl1 k = contains fl2 k.
Proof.
  intros H. rewrite <- !contains_spec in H.
  destruct (contains fl1 k), (contains fl2 k); try reflexivity.
  - symmetry. now apply H.
  - now apply H.
Qed.

Lemma taps_ext fl1 fl2 (outs : list Tensor) :
  forall k,
    (forall j, (k <= j < k + length outs)%nat ->
               contains fl1 j = contains fl2 j) ->
    taps fl1 k outs = taps fl2 k outs.
Proof.
  induction outs as [| y outs IH]; intros k H; [reflexivity |].
  cbn [taps length] in *.
  rewrite (H k) by lia. rewrite (IH (S k)) by (intros; apply H; lia).
  reflexivity.
Qed.

(** [forward] looks at [feature_layer[0]] only through the question
    whether a stage index of the backbone occurs in it: block names, the
    order of the entries, repeated indices, indices outside the backbone
    and the list of depths make no difference to what it returns. *)
Theorem forward_taps_as_set (b e : list Layer) h fl1 fl2 d1 d2 nc x phase
    (l1 l2 : list Slot) :
  (forall z, 0 <= z < Z.of_nat (length b) ->
             (In z (tap_indices fl1) <-> In z (tap_indices fl2))) ->
  fst (forward x phase (mkState (SSD_init b e h (fl1, d1) nc) l1)) =
  fst (forward x phase (mkState (SSD_init b e h (fl2, d2) nc) l2)).
Proof.
  intros H. rewrite !forward_run. cbn [fst this].
  unfold forward_spec, sources_spec, SSD_init.
  cbn [base extras loc conf num_classes feature_layer fst snd].
  destruct (chain b x) as [bouts | ex] eqn:Hb; [| reflexivity].
  cbn [bind Monad_result].
  rewrite (taps_ext fl1 fl2 bouts 0); [reflexivity |].
  intros j Hj. apply contains_ext. apply H.
  rewrite (chain_length _ _ _ Hb) in Hj. lia.
Qed.

Lemma tapped_count_general fl n :
  length (filter (contains fl) (seq 0 n)) =
  length (nodup Z.eq_dec
            (filter (fun z => (0 <=? z) && (z <? Z.of_nat n))
                    (tap_indices fl))).
Proof.
  set (L := filter (contains fl) (seq 0 n)).
  assert (HL : NoDup (map Z.of_nat L)).
  { apply Finite.Injective_map_NoDup.
    - intros a c. apply Nat2Z.inj.
    - apply NoDup_filter, seq_NoDup. }
  rewrite <- (length_map Z.of_nat L).
  apply Nat.le_antisymm; apply NoDup_incl_length;
    try assumption; try apply NoDup_nodup.
  - intros z Hz. apply in_map_iff in Hz as (k & <- & Hk).
    apply filter_In in Hk as [Hr Hk]. apply in_seq in Hr.
    apply nodup_In, filter_In. split; [now apply contains_spec |].
    apply andb_true_iff. split; [apply Z.leb_le | apply Z.ltb_lt]; lia.
  - intros z Hz. apply nodup_In, filter_In in Hz as [Hz Hr].
    apply andb_true_iff in Hr as [H0 Hn].
    apply Z.leb_le in H0. apply Z.ltb_lt in Hn.
    apply in_map_iff. exists (Z.to_nat z).
    rewrite Z2Nat.id by lia. split; [reflexivity |].
    apply filter_In. split.
    + apply in_seq. lia.
    + apply contains_spec. now rewrite Z2Nat.id by lia.
Qed.

(** The list returned in phase "feature" has one entry per distinct
    integer of [feature_layer[0]] that is a stage index of the backbone,
    and one per extra stage: an index outside the backbone or listed
    twice adds nothing, and raises nothing. *)
Theorem forward_feature_count x (s : St) :
  match fst (forward x "feature" s) with
  | Ok (Features srcs) =>
      length srcs =
      Nat.add
        (length (nodup Z.eq_dec
                   (filter (fun z => (0 <=? z)
                                     && (z <? Z.of_nat (length (base (this s)))))
                           (tap_indices (feature_layer (this s))))))
        (length (extras (this s)))
  | Ok (Detections _ _) => False
  | Raise _ => True
  end.
Proof.
  rewrite forward_run. cbn [fst]. unfold forward_spec.
  destruct (sources_spec (this s) x) as [srcs | e] eqn:Hs; [| exact I].
  cbn. rewrite (sources_spec_length _ _ _ Hs). unfold range.
  now rewrite tapped_count_general.
Qed.

(** *** Failures of the heads and of the builder *)

(** [add_extras] does not return when one of the zipped scales has a
    negative depth, or a box count whose product by 4 or by num_classes
    is negative: it checks nothing itself, but the convolution
    constructor refuses that scale, unless the parser or the constructor
    has raised before. *)
Theorem add_extras_unbuildable_raises
    (parse : Descriptor -> option Z -> Z -> result (list Layer))
    (base0 : list Layer) fl mbox nc :
  Exists (fun item => ~ buildable nc item) (zip3 (fst fl) (snd fl) mbox) ->
  is_ok (add_extras parse base0 fl mbox nc) = false.
Proof.
  intros Hex. unfold add_extras.
  pose proof (add_extras_loop_negative parse nc _
                (mkBuilder [] [] [] None) Hex) as H.
  destruct (for_each _ _ _); [discriminate | reflexivity].
Qed.

Lemma forward_first_head (o : SSD) x phase x0 srcs l ls cf cs :
  String.eqb phase "feature" = false ->
  sources_spec o x = Ok (x0 :: srcs) ->
  loc o = l :: ls -> conf o = cf :: cs ->
  forward_spec o x phase =
  (v <- reshaped_head l x0 4 ;;
   w <- reshaped_head cf x0 (num_classes o) ;;
   vws <- heads_spec (num_classes o) (zip3 srcs ls cs) ;;
   loc_ <- cat (v :: map fst vws) 2 ;;
   conf_ <- cat (w :: map snd vws) 2 ;;
   ret (Detections (contiguous loc_) (contiguous conf_))).
Proof.
  intros Hp Hs Hl Hc. rewrite forward_spec_not_feature by assumption.
  rewrite Hs, Hl, Hc. cbn [bind Monad_result zip3]. unfold detect_spec.
  cbn [heads_spec bind ret Monad_result].
  destruct (reshaped_head l x0 4); [| reflexivity].
  destruct (reshaped_head cf x0 (num_classes o)); [| reflexivity].
  destruct (heads_spec _ _); reflexivity.
Qed.

(** A source whose channel count is not the one its localisation
    convolution expects makes [forward] raise the engine's RuntimeError
    in every phase but "feature": nothing in [forward] catches it. *)
Theorem forward_channel_mismatch_raises x phase (s : St)
    x0 srcs c ls cf cs b ch h w :
  phase <> "feature" ->
  sources_spec (this s) x = Ok (x0 :: srcs) ->
  loc (this s) = LConv2d c :: ls -> conf (this s) = cf :: cs ->
  shape x0 = [b; ch; h; w] -> ch <> in_channels c ->
  raises "RuntimeError" (fst (forward x phase s)).
Proof.
  intros Hp Hs Hl Hc Hx Hch. apply String.eqb_neq in Hp.
  rewrite forward_run. cbn [fst].
  rewrite (forward_first_head _ x phase x0 srcs _ ls cf cs Hp Hs Hl Hc).
  unfold reshaped_head at 1. cbn [apply_layer]. unfold conv2d_forward.
  rewrite Hx. destruct (Z.eqb_spec ch (in_channels c)); [contradiction |].
  cbn [andb bind Monad_result]. eexists. reflexivity.
Qed.

(** On an empty batch (a first source whose leading dimension is 0)
    [forward] never returns in a phase other than "feature": the reshape
    to [0, 4, -1] cannot infer its last dimension. *)
Theorem forward_empty_batch_fails x phase (s : St) x0 srcs l ls cf cs :
  phase <> "feature" ->
  sources_spec (this s) x = Ok (x0 :: srcs) ->
  loc (this s) = l :: ls -> conf (this s) = cf :: cs ->
  size x0 0 = Ok 0 ->
  is_ok (fst (forward x phase s)) = false.
Proof.
  intros Hp Hs Hl Hc Hb. apply String.eqb_neq in Hp.
  rewrite forward_run. cbn [fst].
  rewrite (forward_first_head _ x phase x0 srcs _ ls cf cs Hp Hs Hl Hc).
  unfold reshaped_head at 1. cbn [bind Monad_result].
  destruct (apply_layer l x0) as [y | e]; [| reflexivity].
  rewrite Hb. unfold view. destruct (contig y); [| reflexivity].
  reflexivity.
Qed.

Lemma infer_size_tail b c n s :
  infer_size [b; c; -1] n = Ok s -> exists q, s = [b; c; q].
Proof.
  unfold infer_size. cbn [existsb count_occ remove map].
  destruct ((b <? -1) || ((c <? -1) || ((-1 <? -1) || false)));
    [discriminate |].
  destruct (Z.eq_dec b (-1)) as [-> | Hb];
    destruct (Z.eq_dec c (-1)) as [-> | Hc];
    destruct (Z.eq_dec (-1) (-1)) as [_ | Hm]; try congruence;
    try discriminate.
  destruct (_ =? 0); [discriminate |].
  destruct (_ =? 0); [| discriminate].
  intros [= <-].
  destruct (Z.eqb_spec b (-1)); [contradiction |].
  destruct (Z.eqb_spec c (-1)); [contradiction |].
  cbn. eauto.
Qed.

Lemma reshaped_head_shape l (x v : Tensor) c :
  reshaped_head l x c = Ok v ->
  exists b q, size x 0 = Ok b /\ shape v = [b; c; q] /\ contig v = true.
Proof.
  unfold reshaped_head. cbn [bind Monad_result].
  destruct (apply_layer l x) as [y | e]; [| discriminate].
  destruct (size x 0) as [b | e]; [| discriminate].
  unfold view. destruct (contig y); [| discriminate].
  cbn [bind ret Monad_result].
  destruct (infer_size [b; c; -1] (numel y)) as [sz | e] eqn:Hi;
    [| discriminate].
  intros [= <-]. apply infer_size_tail in Hi as (q & ->).
  exists b, q. auto.
Qed.

Lemma cat_trailing_inv (t0 t : Tensor) ts b c q :
  cat (t0 :: ts) 2 = Ok t -> shape t0 = [b; c; q] ->
  exists n, shape t = [b; c; n] /\ contig t = true.
Proof.
  unfold cat, cat_with. intros H Hs. rewrite Hs in H.
  destruct (_ && _); [| discriminate].
  injection H as <-. cbn [shape contig firstn skipn app]. eauto.
Qed.

(** Whatever the modules of the detector, when [forward] returns in a
    phase other than "feature" the localisation tensor has shape
    [b, 4, n] and the confidence tensor has shape [b, num_classes, n'],
    where [b] is the leading dimension of the first source, and both are
    contiguous. *)
Theorem forward_output_rank x phase (s : St) :
  match fst (forward x phase s) with
  | Ok (Detections lo co) =>
      exists x0 srcs b n n',
        sources_spec (this s) x = Ok (x0 :: srcs)
        /\ size x0 0 = Ok b
        /\ shape lo = [b; 4; n]
        /\ shape co = [b; num_classes (this s); n']
        /\ contig lo = true /\ contig co = true
  | _ => True
  end.
Proof.
  rewrite forward_run. cbn [fst]. unfold forward_spec.
  destruct (sources_spec (this s) x) as [srcs | e] eqn:Hs; [| exact I].
  cbn [bind Monad_result].
  destruct (String.eqb phase "feature"); [exact I |].
  destruct (detect_spec _ _) as [[srcs' | lo co] | e] eqn:Hd; try exact I.
  apply detect_spec_inv in Hd as (vws & tl & tc & Hv & Hl & Hc & -> & ->).
  destruct srcs as [| x0 srcs]; [injection Hv as <-; discriminate |].
  destruct (loc (this s)) as [| l ls]; [injection Hv as <-; discriminate |].
  destruct (conf (this s)) as [| cf cs]; [injection Hv as <-; discriminate |].
  cbn [zip3 heads_spec bind ret Monad_result] in Hv.
  destruct (reshaped_head l x0 4) as [v | e] eqn:Hrv; [| discriminate].
  destruct (reshaped_head cf x0 _) as [w | e] eqn:Hrw; [| discriminate].
  destruct (heads_spec _ _) as [vws' | e]; [| discriminate].
  injection Hv as <-. cbn [map fst snd] in Hl, Hc.
  apply reshaped_head_shape in Hrv as (b & q & Hb & Sv & _).
  apply reshaped_head_shape in Hrw as (b' & q' & Hb' & Sw & _).
  rewrite Hb in Hb'. injection Hb' as <-.
  destruct (cat_trailing_inv _ _ _ _ _ _ Hl Sv) as (n & Sl & _).
  destruct (cat_trailing_inv _ _ _ _ _ _ Hc Sw) as (n' & Sc & _).
  exists x0, srcs, b, n, n'. repeat split; assumption.
Qed.

(** With an empty list of box counts [add_extras] never calls the parser
    and builds no stage and no head, whatever the layer descriptors; the
    detector so built returns the tapped backbone outputs in phase
    "feature" but raises, in every other phase once the backbone has run,
    the exception with which the engine refuses to concatenate an empty
    list. *)
Theorem build_ssd_without_boxes
    (parse : Descriptor -> option Z -> Z -> result (list Layer))
    (base_f : unit -> list Layer) fl nc :
  let det := SSD_init (base_f tt) [] ([], []) fl nc in
  build_ssd parse base_f fl [] nc = Ok det
  /\ (forall x (s : St) bouts,
        this s = det -> chain (base_f tt) x = Ok bouts ->
        fst (forward x "feature" s)
        = Ok (Features (taps (fst fl) 0 bouts))
        /\ forall phase,
             phase <> "feature" ->
             fst (forward x phase s) = Raise cat_empty_error).
Proof.
  intros det. split.
  - unfold build_ssd, add_extras.
    rewrite (zip3_nil (fst fl) (snd fl) []) by auto. reflexivity.
  - intros x s bouts Hs Hb.
    assert (Hsrc : sources_spec (this s) x = Ok (taps (fst fl) 0 bouts)).
    { rewrite Hs. unfold sources_spec, det, SSD_init.
      cbn [base extras feature_layer fst snd]. rewrite Hb.
      cbn. now rewrite app_nil_r. }
    split.
    + rewrite forward_run. cbn [fst]. unfold forward_spec.
      now rewrite Hsrc.
    + intros phase Hp. apply String.eqb_neq in Hp.
      rewrite forward_run. cbn [fst].
      rewrite forward_spec_not_feature by assumption. rewrite Hsrc.
      cbn [bind Monad_result]. rewrite zip3_nil.
      * apply detect_spec_nil.
      * right. left. rewrite Hs. reflexivity.
Qed.

End Properties.

(** ** The properties on the concrete detector *)

#[local] Existing Instance Sample.engine.

Lemma sample_valid_config :
  valid_config (length (Sample.backbone tt)) Sample.feature_layer
               Sample.mbox 3.
Proof.
  constructor; cbn.
  - reflexivity.
  - reflexivity.
  - repeat constructor; lia.
  - repeat constructor. intros [].
  - repeat constructor.
  - lia.
Defined.

Lemma sample_one_stage_parser : one_stage_parser Sample.parser.
Proof.
  intros [k | name] ic depth new [= <-]; [reflexivity | eexists; reflexivity].
Defined.

Lemma sample_built :
  build_ssd Sample.parser Sample.backbone Sample.feature_layer Sample.mbox 3
  = Ok Sample.built.
Proof. vm_compute. reflexivity. Defined.

Lemma forward_output_shapes_witness :
  exists lo co,
    fst (forward Sample.image "eval" (mkState Sample.built []))
    = Ok (Detections lo co)
    /\ shape lo = [2; 4; 88] /\ shape co = [2; 3; 88]
    /\ contig lo = true /\ contig co = true.
Proof.
  destruct (forward_output_shapes Sample.parser Sample.backbone
              Sample.feature_layer Sample.mbox 3 Sample.built Sample.image
              "eval" (mkState Sample.built [])
              (Sample.after_sources Sample.built)
              (Sample.sources_of Sample.built) 2 Sample.extents)
    as (lo & co & vws & tl & tc & H & Hl & Hc & Cl & Cc & _).
  - exact sample_valid_config.
  - exact sample_built.
  - reflexivity.
  - right. reflexivity.
  - vm_compute. reflexivity.
  - discriminate.
  - lia.
  - repeat constructor.
  - reflexivity.
  - repeat constructor; cbn; lia.
  - repeat constructor.
  - vm_compute. reflexivity.
  - exists lo, co. repeat split; assumption.
Defined.

Lemma sources_match_heads_witness :
  length (loc Sample.built) = 2%nat
  /\ length (conf Sample.built) = 2%nat
  /\ length (Sample.sources_of Sample.built) = 2%nat.
Proof.
  destruct (sources_match_heads Sample.parser Sample.backbone
              Sample.feature_layer Sample.mbox 3 Sample.built Sample.image
              (mkState Sample.built [])
              sample_valid_config sample_one_stage_parser sample_built
              eq_refl)
    as (Hl & Hc & Hs & _).
  split; [exact Hl |]. split; [exact Hc |].
  apply Hs. vm_compute. reflexivity.
Defined.

Lemma forward_phase_only_feature_test_witness :
  forward Sample.image "train" (mkState Sample.built [])
  = forward Sample.image "test" (mkState Sample.built []).
Proof.
  apply (forward_phase_only_feature_test Sample.image "train" "test"
           (mkState Sample.built []));
    apply String.eqb_neq; reflexivity.
Defined.

Lemma forward_unknown_phase_as_eval_witness :
  forward Sample.image "test" (mkState Sample.built [])
  = forward Sample.image "eval" (mkState Sample.built []).
Proof.
  apply (forward_unknown_phase_as_eval Sample.image "test"
           (mkState Sample.built []));
    apply String.eqb_neq; reflexivity.
Defined.

Lemma forward_applies_no_softmax_witness :
  exists l,
    calls (snd (forward Sample.image "eval" (mkState Sample.built [])))
    = [] ++ l
    /\ ~ In Softmax l.
Proof.
  apply (forward_applies_no_softmax Sample.image "eval"
           (mkState Sample.built [])).
  apply String.eqb_neq. reflexivity.
Defined.


Lemma add_extras_builds_heads_witness :
  exists b' e ls cs,
    add_extras Sample.parser (Sample.backbone tt) Sample.feature_layer
               Sample.mbox 3
    = Ok (b', e, (ls, cs))
    /\ ls = [LConv2d (conv_of 16 (4 * 4)); LConv2d (conv_of 8 (6 * 4))]
    /\ cs = [LConv2d (conv_of 16 (4 * 3)); LConv2d (conv_of 8 (6 * 3))].
Proof.
  do 4 eexists. split; [vm_compute; reflexivity |].
  match goal with
  | |- ?ls = _ /\ ?cs = _ =>
      destruct (add_extras_builds_heads Sample.parser (Sample.backbone tt)
                  Sample.feature_layer Sample.mbox 3
                  (Sample.backbone tt) (extras Sample.built) ls cs)
        as (_ & Hl & Hc & _)
  end.
  - vm_compute. reflexivity.
  - split; vm_compute; reflexivity.
Defined.


(** A negative box count is met by the engine while the second scale is
    being built, not by a check made beforehand. *)
Example add_extras_negative_box_count :
  exn_class
    match add_extras Sample.parser (Sample.backbone tt) Sample.feature_layer
                     [4; -1] 3 with
    | Ok _ => PyExn "" ""
    | Raise e => e
    end
  = "RuntimeError".
Proof. vm_compute. reflexivity. Qed.

(** C4, as stated, fails: in the unknown phase "test", [forward] raises
    nothing and returns the two tensors of the head path. *)
Lemma forward_unknown_phase_runs_heads :
  let r := fst (Sample.run Sample.detector Sample.image "test") in
  ~ raises "InvalidModeError" r
  /\ Sample.shapes r = Ok [[2; 4; 88]; [2; 3; 88]]
  /\ snd (Sample.run Sample.detector Sample.image "test")
     = [Base; Base; Extras; Loc; Conf; Loc; Conf].
Proof.
  cbv zeta. split; [| split].
  - intros [msg H]. vm_compute in H. discriminate H.
  - vm_compute. reflexivity.
  - vm_compute. reflexivity.
Qed.

(** The scenario of two scales: 4 boxes on a 4x4 map and 6 boxes on a 2x2
    map give 88 anchors. *)
Example sample_forward_eval :
  Sample.shapes (fst (Sample.run Sample.detector Sample.image "eval"))
  = Ok [[2; 4; 88]; [2; 3; 88]]
  /\ Sample.shapes (fst (Sample.run Sample.detector Sample.image "feature"))
     = Ok [[2; 16; 4; 4]; [2; 8; 2; 2]]
  /\ snd (Sample.run Sample.detector Sample.image "feature")
     = [Base; Base; Extras].
Proof. repeat split; vm_compute; reflexivity. Qed.

(** ** The further properties on the concrete detector *)


Lemma forward_stage_error_propagates_witness :
  fst (forward Sample.flat_image "train" (mkState Sample.built []))
  = Raise (RuntimeError "expected a 4D input").
Proof.
  apply (forward_stage_error_propagates Sample.flat_image "train"
           (mkState Sample.built [])).
  left. vm_compute. reflexivity.
Defined.

Lemma forward_without_scales_raises_witness :
  fst (forward Sample.image "eval" (mkState Sample.headless []))
  = Raise cat_empty_error.
Proof.
  eapply (forward_without_scales_raises Sample.image "eval"
            (mkState Sample.headless [])).
  - apply String.eqb_neq. reflexivity.
  - reflexivity.
  - right. left. reflexivity.
Defined.

Lemma forward_heads_on_feature_sources_witness :
  fst (forward Sample.image "eval" (mkState Sample.built []))
  = detect_spec 3 (zip3 (Sample.sources_of Sample.built)
                        (loc Sample.built) (conf Sample.built)).
Proof.
  apply (forward_heads_on_feature_sources Sample.image "eval"
           (mkState Sample.built []) (Sample.sources_of Sample.built)).
  - apply String.eqb_neq. reflexivity.
  - vm_compute. reflexivity.
Defined.

Lemma forward_taps_as_set_witness :
  fst (forward Sample.image "feature"
         (mkState (SSD_init (Sample.backbone tt) (extras Sample.built)
                            (loc Sample.built, conf Sample.built)
                            ([DInt 1; DStr "S"], [16; 8]) 3) []))
  = fst (forward Sample.image "feature"
           (mkState (SSD_init (Sample.backbone tt) (extras Sample.built)
                              (loc Sample.built, conf Sample.built)
                              ([DStr "S"; DInt 7; DInt 1; DInt 1], []) 3)
                    [Base])).
Proof.
  apply forward_taps_as_set.
  intros z Hz. cbn in Hz. cbn. split; intros H.
  - destruct H as [<- | []]. auto.
  - destruct H as [<- | [<- | [<- | []]]]; auto. lia.
Defined.

Lemma add_extras_unbuildable_raises_witness :
  is_ok (add_extras Sample.parser (Sample.backbone tt) Sample.feature_layer
                    [4; -1] 3)
  = false.
Proof.
  apply add_extras_unbuildable_raises.
  apply Exists_cons_tl, Exists_cons_hd.
  unfold buildable. cbn. lia.
Defined.

Lemma forward_channel_mismatch_raises_witness :
  raises "RuntimeError"
         (fst (forward Sample.image "train" (mkState Sample.mismatched []))).
Proof.
  eapply (forward_channel_mismatch_raises Sample.image "train"
            (mkState Sample.mismatched [])).
  - apply String.eqb_neq. reflexivity.
  - reflexivity.
  - reflexivity.
  - reflexivity.
  - reflexivity.
  - cbn. lia.
Defined.

Lemma forward_empty_batch_fails_witness :
  is_ok (fst (forward Sample.empty_batch "eval" (mkState Sample.built [])))
  = false.
Proof.
  eapply (forward_empty_batch_fails Sample.empty_batch "eval"
            (mkState Sample.built [])).
  - apply String.eqb_neq. reflexivity.
  - reflexivity.
  - reflexivity.
  - reflexivity.
  - reflexivity.
Defined.

(** ** Where the statements of the specification fail *)

(** C1, as stated, fails: the scenario's configuration is valid, yet on
    an empty batch [forward] in phase "eval" returns no tensor; and the
    configuration without any scale is valid too, yet the detector built
    from it returns no tensor on the scenario's image. *)
Lemma forward_output_shapes_counterexample :
  valid_config (length (Sample.backbone tt)) Sample.feature_layer
               Sample.mbox 3
  /\ build_ssd Sample.parser Sample.backbone Sample.feature_layer
               Sample.mbox 3 = Ok Sample.built
  /\ is_ok (fst (forward Sample.empty_batch "eval"
                         (mkState Sample.built []))) = false
  /\ valid_config (length (Sample.backbone tt)) ([], []) [] 3
  /\ build_ssd Sample.parser Sample.backbone ([], []) [] 3
     = Ok Sample.unscaled
  /\ is_ok (fst (forward Sample.image "eval"
                         (mkState Sample.unscaled []))) = false.
Proof.
  split; [exact sample_valid_config |].
  split; [exact sample_built |].
  split; [vm_compute; reflexivity |].
  split; [constructor; cbn; auto using NoDup_nil; lia |].
  split; vm_compute; reflexivity.
Qed.

(** C6, as stated, fails: on the scenario's valid configuration, with a
    parser that yields two stages for a block name, the detector has two
    localisation heads, two classification heads and two box counts, but
    [forward] collects three sources. *)
Lemma sources_match_heads_counterexample :
  valid_config (length (Sample.backbone tt)) Sample.feature_layer
               Sample.mbox 3
  /\ build_ssd Sample.parser2 Sample.backbone Sample.feature_layer
               Sample.mbox 3 = Ok Sample.built2
  /\ length (loc Sample.built2) = 2%nat
  /\ length (conf Sample.built2) = 2%nat
  /\ length Sample.mbox = 2%nat
  /\ exists srcs,
       fst (forward Sample.image "feature" (mkState Sample.built2 []))
       = Ok (Features srcs)
       /\ length srcs = 3%nat.
Proof.
  split; [exact sample_valid_config |].
  split; [vm_compute; reflexivity |].
  split; [vm_compute; reflexivity |].
  split; [vm_compute; reflexivity |].
  split; [reflexivity |].
  eexists. split; [vm_compute; reflexivity | reflexivity].
Qed.



